(** * Net & Serial Monitor: a shallow embedding of [main.cpp]

    The program polls two external probe scripts from two worker threads,
    publishes their tri-state results through three atomics, and redraws a
    status line and three indicator circles from a UI timer.

    - [int] values are modelled as [Z]; the panel's layout arithmetic wraps
      around as 32-bit two's complement ([wrap_int]); C++ integer division
      is [Z.quot].
    - [std::string] is [string]; the [std::stringstream] over [PATH] is the
      string of characters not yet extracted.
    - the atomics of [AppState] are sequentially consistent, so a run of the
      program is an interleaving of the atomic steps of its threads. *)

From Stdlib Require Import ZArith List String Ascii Bool Lia.
Import ListNotations.

Local Open Scope string_scope.
Local Open Scope Z_scope.

(** ** Data model *)

(** [enum class ProbeState : int { Unknown = -1, Fail = 0, Ok = 1 }] *)
Inductive ProbeState : Type := Unknown | Fail | Ok.

Definition ProbeState_to_int (st : ProbeState) : Z :=
  match st with Unknown => -1 | Fail => 0 | Ok => 1 end.

(** [struct AppState]: the three atomics shared by workers and UI. *)
Record AppState : Type := mkAppState {
  network : ProbeState;
  serial : ProbeState;
  running : bool
}.

(** The value built by the default member initialisers. *)
Definition AppState_init : AppState :=
  {| network := Unknown; serial := Unknown; running := true |}.

(** What a thread reads from its surroundings: the value of [PATH]
    ([None] when [std::getenv] returns a null pointer) and the answer of
    [access(path, X_OK) == 0]. *)
Record Env : Type := mkEnv {
  getenv_PATH : option string;
  access_X_OK : string -> bool
}.

(** ** [resolve_path] *)

(** Characters extracted by one [std::getline(ss, dir, delim)] from a
    non-exhausted stream: everything up to the delimiter, which is consumed
    and dropped, or up to the end of the stream. *)
Fixpoint getline_extract (ss : string) (delim : ascii) : string * string :=
  match ss with
  | EmptyString => (EmptyString, EmptyString)
  | String c rest =>
      if Ascii.eqb c delim then (EmptyString, rest)
      else let (dir, rest') := getline_extract rest delim in
           (String c dir, rest')
  end.

(** [std::getline]: fails (the stream tests false) when no character at all
    could be extracted, that is at end of stream; otherwise yields the line
    and the remaining stream. *)
Definition getline (ss : string) (delim : ascii) : option (string * string) :=
  match ss with
  | EmptyString => None
  | _ => Some (getline_extract ss delim)
  end.

Definition string_empty (s : string) : bool :=
  match s with EmptyString => true | _ => false end.

Definition candidate_of (script dir : string) : string :=
  dir ++ "/" ++ script.

Section Resolve.

Variable e : Env.
Variable script : string.

(** The [while (std::getline(ss, dir, ':'))] loop.  The result is the
    candidate returned from inside the loop, if any, together with the
    arguments of the [access] calls made, in call order.  Every round
    consumes at least one character, so [S (length sp)] rounds suffice
    (see [path_loop_fuel]). *)
Fixpoint path_loop (fuel : nat) (ss : string) : option string * list string :=
  match fuel with
  | O => (None, [])
  | S fuel' =>
      match getline ss ":" with
      | None => (None, [])
      | Some (dir, rest) =>
          if string_empty dir then path_loop fuel' rest
          else
            let candidate := candidate_of script dir in
            if access_X_OK e candidate then (Some candidate, [candidate])
            else let (r, tr) := path_loop fuel' rest in (r, candidate :: tr)
      end
  end.

(** [const char* fallbacks[] = { "/usr/local/bin", "/usr/bin", nullptr }] *)
Definition fallbacks : list string := ["/usr/local/bin"; "/usr/bin"].

(** The [for (int i = 0; fallbacks[i]; ++i)] loop. *)
Fixpoint fallback_loop (fb : list string) : option string * list string :=
  match fb with
  | [] => (None, [])
  | dir :: fb' =>
      let candidate := candidate_of script dir in
      if access_X_OK e candidate then (Some candidate, [candidate])
      else let (r, tr) := fallback_loop fb' in (r, candidate :: tr)
  end.

(** [resolve_path(script)] with the list of paths handed to [access]. *)
Definition resolve_path_trace : string * list string :=
  let (found, tr) :=
    match getenv_PATH e with
    | Some sp => path_loop (S (String.length sp)) sp
    | None => (None, [])
    end in
  match found with
  | Some path => (path, tr)
  | None =>
      let (found', tr') := fallback_loop fallbacks in
      match found' with
      | Some path => (path, (tr ++ tr')%list)
      | None => (EmptyString, (tr ++ tr')%list)
      end
  end.

Definition resolve_path : string := fst resolve_path_trace.
Definition resolve_path_probes : list string := snd resolve_path_trace.

End Resolve.

(** ** Effects

    Everything a thread does that another thread, the operating system or
    the toolkit can see. *)

Inductive cell : Type := CNetwork | CSerial | CRunning.

Inductive Fl_Color : Type :=
| FL_GREEN
| FL_RED
| FL_BLACK
| FL_DARK3
| fl_rgb_color (r g b : Z).

Inductive Fl_Font : Type := FL_HELVETICA.

(** Calls into [fl_draw.H]; the angles [0.0] and [360.0] are kept as the
    integers they denote. *)
Inductive fl_call : Type :=
| fl_color (c : Fl_Color)
| fl_pie (x y w h a1 a2 : Z)
| fl_arc (x y w h a1 a2 : Z)
| fl_font (face : Fl_Font) (size : Z)
| fl_draw (s : string) (x y : Z).

Inductive event : Type :=
| EvLoad (c : cell)
| EvStoreNetwork (v : ProbeState)
| EvStoreSerial (v : ProbeState)
| EvStoreRunning (b : bool)
| EvAccess (path : string)
| EvSystem (cmd : string)
| EvSleep (ms : Z)
| EvFl (c : fl_call)
| EvCopyLabel (s : string).

(** The atomic a store event writes. *)
Definition written_cell (ev : event) : option cell :=
  match ev with
  | EvStoreNetwork _ => Some CNetwork
  | EvStoreSerial _ => Some CSerial
  | EvStoreRunning _ => Some CRunning
  | _ => None
  end.

(** A computation over the shared [AppState] that logs its events. *)
Definition M (A : Type) : Type := AppState -> A * AppState * list event.

Definition ret {A : Type} (a : A) : M A := fun s => (a, s, []).

Definition bind {A B : Type} (m : M A) (k : A -> M B) : M B :=
  fun s =>
    let '(a, s1, t1) := m s in
    let '(b, s2, t2) := k a s1 in
    (b, s2, (t1 ++ t2)%list).

Notation "x <- m ;; k" := (bind m (fun x => k))
  (at level 61, m at next level, right associativity).
Notation "m ;;; k" := (bind m (fun _ => k))
  (at level 61, right associativity).

Definition emit (evs : list event) : M unit := fun s => (tt, s, evs).

Definition network_load : M ProbeState :=
  fun s => (network s, s, [EvLoad CNetwork]).
Definition serial_load : M ProbeState :=
  fun s => (serial s, s, [EvLoad CSerial]).
Definition running_load : M bool :=
  fun s => (running s, s, [EvLoad CRunning]).

Definition network_store (v : ProbeState) : M unit :=
  fun s => (tt, mkAppState v (serial s) (running s), [EvStoreNetwork v]).
Definition serial_store (v : ProbeState) : M unit :=
  fun s => (tt, mkAppState (network s) v (running s), [EvStoreSerial v]).
Definition running_store (b : bool) : M unit :=
  fun s => (tt, mkAppState (network s) (serial s) b, [EvStoreRunning b]).

(** ** [run_command_success]

    [rc] is the value returned by [std::system(cmd)]: [-1] when the shell
    could not be launched, the wait status of the command otherwise. *)
Definition run_command_success (rc : Z) : ProbeState :=
  if rc =? 0 then Ok else Fail.

(** ** [StatusPanel] *)

(** Geometry of an [Fl_Widget]: [x()], [y()], [w()], [h()]. *)
Record Widget : Type := mkWidget { wx : Z; wy : Z; ww : Z; wh : Z }.

Definition gray : Fl_Color := fl_rgb_color 128 128 128.

Definition color_for (st : ProbeState) : Fl_Color :=
  match st with
  | Ok => FL_GREEN
  | Fail => FL_RED
  | Unknown => gray
  end.

Definition draw_circle (cx cy d : Z) (fill : Fl_Color) : M unit :=
  emit [EvFl (fl_color fill);
        EvFl (fl_pie cx cy d d 0 360);
        EvFl (fl_color FL_DARK3);
        EvFl (fl_arc cx cy d d 0 360)].

(** [int] arithmetic: the exact result reduced to the 32-bit two's
    complement range, as the compiled program computes it.  Division by the
    constants 2 and 3 truncates toward zero ([Z.quot]) and cannot leave the
    range. *)
Definition wrap_int (z : Z) : Z :=
  (z + 2147483648) mod 4294967296 - 2147483648.

Definition int_add (a b : Z) : Z := wrap_int (a + b).
Definition int_sub (a b : Z) : Z := wrap_int (a - b).
Definition int_mul (a b : Z) : Z := wrap_int (a * b).

Section Panel.

(** [fl_measure(s, tw, th, false)] in the current font: the toolkit's
    answer [(tw, th)]. *)
Variable fl_measure : string -> Z * Z.

Definition draw_caption_centered (x y w : Z) (s : string) : M unit :=
  let (tw, th) := fl_measure s in
  let tx := int_add x (Z.quot (int_sub w tw) 2) in
  let ty := int_add y th in
  emit [EvFl (fl_font FL_HELVETICA 12);
        EvFl (fl_color FL_BLACK);
        EvFl (fl_draw s tx ty)].

Definition margin : Z := 10.

Definition available (wg : Widget) : Z :=
  int_sub (ww wg) (int_mul margin 2).

(** The diameter: [available / 3 - 10], then the two [if]s. *)
Definition diameter (wg : Widget) : Z :=
  let d := int_sub (Z.quot (available wg) 3) 10 in
  let d := if d >? 100 then 100 else d in
  let d := if d <? 60 then 60 else d in
  d.

Definition gap (wg : Widget) : Z :=
  Z.quot (int_sub (available wg) (int_mul 3 (diameter wg))) 2.

(** The left edges [x0], [x1], [x2] of the three circles. *)
Definition circle_xs (wg : Widget) : Z * Z * Z :=
  let d := diameter wg in
  let left := int_add (wx wg) margin in
  (left,
   int_add (int_add left d) (gap wg),
   int_add left (int_mul 2 (int_add d (gap wg)))).

Definition draw (wg : Widget) : M unit :=
  let d := diameter wg in
  let top := int_add (wy wg) 10 in
  let circleY := top in
  let captionY := int_add (int_add circleY d) 8 in
  st0 <- network_load ;;
  let c0 := color_for st0 in
  st1 <- serial_load ;;
  let c1 := color_for st1 in
  let c2 := fl_rgb_color 128 128 128 in
  let '(x0, x1, x2) := circle_xs wg in
  draw_circle x0 circleY d c0 ;;;
  draw_circle x1 circleY d c1 ;;;
  draw_circle x2 circleY d c2 ;;;
  draw_caption_centered x0 captionY d "network" ;;;
  draw_caption_centered x1 captionY d "serial".

End Panel.

(** ** [make_status_line] *)

Definition to_str (st : ProbeState) : string :=
  match st with
  | Ok => "OK"
  | Fail => "down"
  | Unknown => "unknown"
  end.

(** [std::snprintf(buf, size, ...)] keeps at most [size - 1] characters of
    the formatted text. *)
Definition snprintf (size : nat) (formatted : string) : string :=
  substring 0 (size - 1) formatted.

Definition make_status_line : M string :=
  p <- network_load ;;
  q <- serial_load ;;
  ret (snprintf 128 ("network=" ++ to_str p ++ ", serial=" ++ to_str q)).

(** ** Background worker loops

    A worker is run one atomic step at a time; [wpc] is the point in
    [network_worker] / [serial_worker] the thread has reached, with the
    locals [cmd] and [i] that are live there. *)
Inductive wpc : Type :=
| PEntry                          (* function entry, before resolve_path *)
| PWhile (cmd : string)           (* at  while (s->running.load())        *)
| PBody (cmd : string)            (* at  store(run_command_success(cmd))  *)
| PFor (cmd : string) (i : Z)     (* at  i < 40 && s->running.load()      *)
| PSleep (cmd : string) (i : Z)   (* at  sleep_for(50ms); ++i             *)
| PReturn.                        (* the function has returned            *)

Definition command_line (script : string) : string :=
  "'" ++ script ++ "' >/dev/null 2>&1".

Section Workers.

Variable e : Env.

(** One step of [network_worker]; [rc] is what [std::system] returns if
    this step is the one that calls it. *)
Definition network_worker_step (rc : Z) (pc : wpc) : M wpc :=
  match pc with
  | PEntry =>
      let script := resolve_path e "test_network.sh" in
      emit (map EvAccess (resolve_path_probes e "test_network.sh")) ;;;
      if string_empty script then
        serial_store Unknown ;;;
        ret PReturn
      else ret (PWhile (command_line script))
  | PWhile cmd =>
      r <- running_load ;;
      ret (if r then PBody cmd else PReturn)
  | PBody cmd =>
      emit [EvSystem cmd] ;;;
      network_store (run_command_success rc) ;;;
      ret (PFor cmd 0)
  | PFor cmd i =>
      if i <? 40 then
        r <- running_load ;;
        ret (if r then PSleep cmd i else PWhile cmd)
      else ret (PWhile cmd)
  | PSleep cmd i =>
      emit [EvSleep 50] ;;;
      ret (PFor cmd (i + 1))
  | PReturn => ret PReturn
  end.

(** One step of [serial_worker]. *)
Definition serial_worker_step (rc : Z) (pc : wpc) : M wpc :=
  match pc with
  | PEntry =>
      let script := resolve_path e "test_serial.sh" in
      emit (map EvAccess (resolve_path_probes e "test_serial.sh")) ;;;
      if string_empty script then
        serial_store Unknown ;;;
        ret PReturn
      else ret (PWhile (command_line script))
  | PWhile cmd =>
      r <- running_load ;;
      ret (if r then PBody cmd else PReturn)
  | PBody cmd =>
      emit [EvSystem cmd] ;;;
      serial_store (run_command_success rc) ;;;
      ret (PFor cmd 0)
  | PFor cmd i =>
      if i <? 40 then
        r <- running_load ;;
        ret (if r then PSleep cmd i else PWhile cmd)
      else ret (PWhile cmd)
  | PSleep cmd i =>
      emit [EvSleep 50] ;;;
      ret (PFor cmd (i + 1))
  | PReturn => ret PReturn
  end.

End Workers.

(** ** The UI thread *)

Section Ui.

Variable fl_measure : string -> Z * Z.
Variable panel : Widget.

(** [ui_timer_cb] with the redraw it requests ([main] passes non-null
    [ui], [status_box] and [panel]): the status line is composed and
    installed as the label, then the toolkit calls [StatusPanel::draw]. *)
Definition ui_timer_cb : M unit :=
  line <- make_status_line ;;
  emit [EvCopyLabel line] ;;;
  draw fl_measure panel.

(** The exit button and window-close callbacks, and the store after
    [Fl::run()] returns. *)
Definition stop_cb : M unit := running_store false.

End Ui.

(** ** The whole program as an interleaving *)

Inductive tid : Type := TNetwork | TSerial | TUi.

Record Sys : Type := mkSys {
  app : AppState;
  net_pc : wpc;
  ser_pc : wpc
}.

(** After [std::thread t_network(...)], [std::thread t_ser(...)]. *)
Definition Sys_init : Sys :=
  {| app := AppState_init; net_pc := PEntry; ser_pc := PEntry |}.

(** What the scheduler lets happen next. *)
Inductive choice : Type :=
| RunNetwork (rc : Z)
| RunSerial (rc : Z)
| UiTimer
| UiStop.

Definition tid_of (c : choice) : tid :=
  match c with
  | RunNetwork _ => TNetwork
  | RunSerial _ => TSerial
  | UiTimer | UiStop => TUi
  end.

Section Program.

Variable e : Env.
Variable fl_measure : string -> Z * Z.
Variable panel : Widget.

Definition sys_step (sy : Sys) (c : choice) : Sys * list (tid * event) :=
  match c with
  | RunNetwork rc =>
      let '(pc, s, tr) := network_worker_step e rc (net_pc sy) (app sy) in
      (mkSys s pc (ser_pc sy), map (pair TNetwork) tr)
  | RunSerial rc =>
      let '(pc, s, tr) := serial_worker_step e rc (ser_pc sy) (app sy) in
      (mkSys s (net_pc sy) pc, map (pair TSerial) tr)
  | UiTimer =>
      let '(_, s, tr) := ui_timer_cb fl_measure panel (app sy) in
      (mkSys s (net_pc sy) (ser_pc sy), map (pair TUi) tr)
  | UiStop =>
      let '(_, s, tr) := stop_cb (app sy) in
      (mkSys s (net_pc sy) (ser_pc sy), map (pair TUi) tr)
  end.

Fixpoint exec (sy : Sys) (sched : list choice) : Sys * list (tid * event) :=
  match sched with
  | [] => (sy, [])
  | c :: sched' =>
      let (sy1, t1) := sys_step sy c in
      let (sy2, t2) := exec sy1 sched' in
      (sy2, (t1 ++ t2)%list)
  end.

End Program.

(** A store by a worker thread into the other probe's cell. *)
Definition cross_write (te : tid * event) : bool :=
  match te with
  | (TNetwork, EvStoreSerial _) => true
  | (TSerial, EvStoreNetwork _) => true
  | _ => false
  end.

Definition is_system (ev : event) : bool :=
  match ev with EvSystem _ => true | _ => false end.

Definition is_sleep (ev : event) : bool :=
  match ev with EvSleep _ => true | _ => false end.

(** [StatusPanel panel(10, 10, W - 20, 160, &state)] with [W = 320]. *)
Definition panel_main : Widget := mkWidget 10 10 (320 - 20) 160.

(** ** The worker loops at the grain of [std::system]

    In [network_worker_step] and [serial_worker_step] the call of
    [std::system] and the store of its outcome form one step, which is
    enough for what is said about whole rounds and about the other cells.
    The steps below separate the moments another thread can fall between:
    the loop check has passed and the call has not begun ([FCall]); the
    call is in progress ([FInCall]); the call has returned and its outcome
    is not yet stored ([FStore]).  [EvSystem] marks the start of the call;
    [rc] is what the call returns when it returns. *)
Inductive fpc : Type :=
| FEntry                               (* function entry                     *)
| FWhile (cmd : string)                (* at  while (s->running.load())      *)
| FCall (cmd : string)                 (* at  std::system(cmd), not begun    *)
| FInCall (cmd : string)               (* in  std::system(cmd)               *)
| FStore (cmd : string) (rc : Z)       (* at  store(rc == 0 ? Ok : Fail)     *)
| FFor (cmd : string) (i : Z)          (* at  i < 40 && s->running.load()    *)
| FSleep (cmd : string) (i : Z)        (* at  sleep_for(50ms); ++i           *)
| FReturn.                             (* the function has returned          *)

Section FineWorkers.

Variable e : Env.

Definition network_worker_fine (rc : Z) (pc : fpc) : M fpc :=
  match pc with
  | FEntry =>
      let script := resolve_path e "test_network.sh" in
      emit (map EvAccess (resolve_path_probes e "test_network.sh")) ;;;
      if string_empty script then
        serial_store Unknown ;;;
        ret FReturn
      else ret (FWhile (command_line script))
  | FWhile cmd =>
      r <- running_load ;;
      ret (if r then FCall cmd else FReturn)
  | FCall cmd =>
      emit [EvSystem cmd] ;;;
      ret (FInCall cmd)
  | FInCall cmd => ret (FStore cmd rc)
  | FStore cmd rc' =>
      network_store (run_command_success rc') ;;;
      ret (FFor cmd 0)
  | FFor cmd i =>
      if i <? 40 then
        r <- running_load ;;
        ret (if r then FSleep cmd i else FWhile cmd)
      else ret (FWhile cmd)
  | FSleep cmd i =>
      emit [EvSleep 50] ;;;
      ret (FFor cmd (i + 1))
  | FReturn => ret FReturn
  end.

Definition serial_worker_fine (rc : Z) (pc : fpc) : M fpc :=
  match pc with
  | FEntry =>
      let script := resolve_path e "test_serial.sh" in
      emit (map EvAccess (resolve_path_probes e "test_serial.sh")) ;;;
      if string_empty script then
        serial_store Unknown ;;;
        ret FReturn
      else ret (FWhile (command_line script))
  | FWhile cmd =>
      r <- running_load ;;
      ret (if r then FCall cmd else FReturn)
  | FCall cmd =>
      emit [EvSystem cmd] ;;;
      ret (FInCall cmd)
  | FInCall cmd => ret (FStore cmd rc)
  | FStore cmd rc' =>
      serial_store (run_command_success rc') ;;;
      ret (FFor cmd 0)
  | FFor cmd i =>
      if i <? 40 then
        r <- running_load ;;
        ret (if r then FSleep cmd i else FWhile cmd)
      else ret (FWhile cmd)
  | FSleep cmd i =>
      emit [EvSleep 50] ;;;
      ret (FFor cmd (i + 1))
  | FReturn => ret FReturn
  end.

End FineWorkers.

(** The point of the fine-grained loop a point of the coarse one stands
    for. *)
Definition fine_of (pc : wpc) : fpc :=
  match pc with
  | PEntry => FEntry
  | PWhile cmd => FWhile cmd
  | PBody cmd => FCall cmd
  | PFor cmd i => FFor cmd i
  | PSleep cmd i => FSleep cmd i
  | PReturn => FReturn
  end.

Record FSys : Type := mkFSys {
  fapp : AppState;
  fnet : fpc;
  fser : fpc
}.

Definition FSys_init : FSys :=
  {| fapp := AppState_init; fnet := FEntry; fser := FEntry |}.

Section FineProgram.

Variable e : Env.
Variable fl_measure : string -> Z * Z.
Variable panel : Widget.

Definition fsys_step (sy : FSys) (c : choice) : FSys * list (tid * event) :=
  match c with
  | RunNetwork rc =>
      let '(pc, s, tr) := network_worker_fine e rc (fnet sy) (fapp sy) in
      (mkFSys s pc (fser sy), map (pair TNetwork) tr)
  | RunSerial rc =>
      let '(pc, s, tr) := serial_worker_fine e rc (fser sy) (fapp sy) in
      (mkFSys s (fnet sy) pc, map (pair TSerial) tr)
  | UiTimer =>
      let '(_, s, tr) := ui_timer_cb fl_measure panel (fapp sy) in
      (mkFSys s (fnet sy) (fser sy), map (pair TUi) tr)
  | UiStop =>
      let '(_, s, tr) := stop_cb (fapp sy) in
      (mkFSys s (fnet sy) (fser sy), map (pair TUi) tr)
  end.

Fixpoint fexec (sy : FSys) (sched : list choice) : FSys * list (tid * event) :=
  match sched with
  | [] => (sy, [])
  | c :: sched' =>
      let (sy1, t1) := fsys_step sy c in
      let (sy2, t2) := fexec sy1 sched' in
      (sy2, (t1 ++ t2)%list)
  end.

End FineProgram.

(** ** Specification-side definitions

    These follow the wording of the specification, not the code; the
    theorems below compare them with the definitions above. *)

(** The entries of a colon-separated list, empty ones included. *)
Fixpoint split_colon (s : string) : list string :=
  match s with
  | EmptyString => [EmptyString]
  | String c rest =>
      if Ascii.eqb c ":" then EmptyString :: split_colon rest
      else match split_colon rest with
           | seg :: segs => String c seg :: segs
           | [] => [String c EmptyString]
           end
  end.

Definition nonempty (s : string) : bool := negb (string_empty s).

(** The directories named by a search-path value, in listed order. *)
Definition path_dirs (sp : string) : list string :=
  filter nonempty (split_colon sp).

(** The ordered list of directories to search: those of the search-path
    variable, then the fixed fallback list. *)
Definition search_dirs (e : Env) : list string :=
  (match getenv_PATH e with Some sp => path_dirs sp | None => [] end
   ++ fallbacks)%list.

(** The entries of the search-path variable as written, empty ones
    included; none when the variable is unset. *)
Definition path_entries (e : Env) : list string :=
  match getenv_PATH e with Some sp => split_colon sp | None => [] end.

(** Probing an ordered list of candidates, first hit wins: the candidates
    tried, up to and including the first hit. *)
Fixpoint probed_until (hit : string -> bool) (cands : list string) : list string :=
  match cands with
  | [] => []
  | c :: cands' => if hit c then [c] else c :: probed_until hit cands'
  end.

(** The first hit, or the empty string when there is none. *)
Definition first_hit (hit : string -> bool) (cands : list string) : string :=
  match find hit cands with Some c => c | None => EmptyString end.

(** Status line wording of the specification. *)
Definition spec_word (st : ProbeState) : string :=
  match st with Ok => "OK" | Fail => "down" | Unknown => "unknown" end.

Definition spec_status_line (w x : ProbeState) : string :=
  "network=" ++ spec_word w ++ ", serial=" ++ spec_word x.

(** ** Observations on runs *)

(** The text [make_status_line] returns in state [s]. *)
Definition status_line (s : AppState) : string :=
  fst (fst (make_status_line s)).

(** The filled circles a sequence of toolkit calls paints: left edge, top
    edge, diameter and the colour selected by the latest [fl_color]. *)
Fixpoint filled_circles (cur : Fl_Color) (tr : list event)
  : list (Z * Z * Z * Fl_Color) :=
  match tr with
  | [] => []
  | EvFl (fl_color c) :: tr' => filled_circles c tr'
  | EvFl (fl_pie x y w _ _ _) :: tr' => (x, y, w, cur) :: filled_circles cur tr'
  | _ :: tr' => filled_circles cur tr'
  end.

(** A circle of diameter [d] with left edge [cx] lies within the
    horizontal extent of the widget. *)
Definition circle_inside (wg : Widget) (cx d : Z) : Prop :=
  wx wg <= cx /\ cx + d <= wx wg + ww wg.

Definition circles_inside (wg : Widget) : Prop :=
  let '(x0, x1, x2) := circle_xs wg in
  circle_inside wg x0 (diameter wg) /\
  circle_inside wg x1 (diameter wg) /\
  circle_inside wg x2 (diameter wg).

(** The range of a 32-bit [int]. *)
Definition in_int (z : Z) : Prop := - 2 ^ 31 <= z < 2 ^ 31.

(** Widget geometry for which no [int] operation of the horizontal layout
    wraps: the width at most 2^30 in magnitude, the x position at most
    2^29. *)
Definition layout_in_range (wg : Widget) : Prop :=
  - 1073741824 <= ww wg <= 1073741824
  /\ - 536870912 <= wx wg <= 536870912.

(** The same, with the y position at most 2^30 in magnitude. *)
Definition panel_in_range (wg : Widget) : Prop :=
  layout_in_range wg /\ - 1073741824 <= wy wg <= 1073741824.

(** Widths for which [w() - 20] does not wrap. *)
Definition width_in_range (wg : Widget) : Prop :=
  - 2147483628 <= ww wg <= 2147483647.

(** A measured text size for which the caption arithmetic does not wrap:
    the width at most 2^30 in magnitude, the height at most 2^29. *)
Definition measure_in_range (fl_measure : string -> Z * Z) (s : string) : Prop :=
  - 1073741824 <= fst (fl_measure s) <= 1073741824
  /\ - 536870912 <= snd (fl_measure s) <= 536870912.

(** The diameter and the gap as functions of the width, computed over the
    unbounded integers. *)
Definition diameter_Z (w : Z) : Z :=
  let d := Z.quot (w - 20) 3 - 10 in
  let d := if d >? 100 then 100 else d in
  if d <? 60 then 60 else d.

Definition gap_Z (w : Z) : Z := Z.quot (w - 20 - 3 * diameter_Z w) 2.

(** An event that only reads shared state or talks to the toolkit. *)
Definition read_only_event (ev : event) : Prop :=
  match ev with
  | EvLoad CNetwork | EvLoad CSerial | EvLoad CRunning => True
  | EvFl _ | EvCopyLabel _ => True
  | _ => False
  end.

Definition tid_eqb (a b : tid) : bool :=
  match a, b with
  | TNetwork, TNetwork | TSerial, TSerial | TUi, TUi => true
  | _, _ => false
  end.

(** Where worker [t] stands; the UI thread runs no worker loop. *)
Definition pc_of (t : tid) (sy : Sys) : wpc :=
  match t with
  | TNetwork => net_pc sy
  | TSerial => ser_pc sy
  | TUi => PReturn
  end.

(** How many steps of a schedule belong to thread [t]. *)
Definition runs_of (t : tid) (sched : list choice) : nat :=
  List.length (filter (fun c => tid_eqb (tid_of c) t) sched).

(** How many events of kind [p] thread [t] contributed to a trace. *)
Definition events_of (t : tid) (p : event -> bool) (tr : list (tid * event)) : nat :=
  List.length (filter (fun te => tid_eqb (fst te) t && p (snd te)) tr).

(** Total time slept by thread [t] in a trace, in milliseconds. *)
Fixpoint slept_ms (t : tid) (tr : list (tid * event)) : Z :=
  match tr with
  | [] => 0
  | (t', EvSleep ms) :: tr' =>
      (if tid_eqb t' t then ms else 0) + slept_ms t tr'
  | _ :: tr' => slept_ms t tr'
  end.

(** A sleep event, if it is one, lasts 50 ms. *)
Definition sleep_is_50 (ev : event) : Prop :=
  is_sleep ev = true -> ev = EvSleep 50.

(** Every sleep of thread [t] in a trace lasts 50 ms. *)
Definition sleeps_are_50 (t : tid) (tr : list (tid * event)) : Prop :=
  slept_ms t tr = 50 * Z.of_nat (events_of t is_sleep tr).

(** The sleep between two probe runs, undisturbed: 40 rounds of "load
    [running], sleep 50 ms", then back to the loop head. *)
Definition full_sleep (t : tid) : list (tid * event) :=
  List.concat (repeat [(t, EvLoad CRunning); (t, EvSleep 50)] 40).

(** Where worker [t] stands in the fine-grained program. *)
Definition fpc_of (t : tid) (sy : FSys) : fpc :=
  match t with
  | TNetwork => fnet sy
  | TSerial => fser sy
  | TUi => FReturn
  end.

(** With [running] false, an upper bound on the steps a worker still takes
    before it has returned. *)
Definition fsteps_left (pc : fpc) : nat :=
  match pc with
  | FEntry => 2
  | FWhile _ => 1
  | FCall _ => 5
  | FInCall _ => 4
  | FStore _ _ => 3
  | FFor _ _ => 2
  | FSleep _ _ => 3
  | FReturn => 0
  end.

(** A worker that has passed its loop check and not yet begun the call
    is committed to one more call of [std::system]; at every other point it
    is committed to none. *)
Definition call_pending (pc : fpc) : nat :=
  match pc with FCall _ => 1%nat | _ => 0%nat end.

(** A worker standing at [sleep_for(50ms)] is committed to one more sleep
    increment. *)
Definition fsleep_pending (pc : fpc) : nat :=
  match pc with FSleep _ _ => 1%nat | _ => 0%nat end.


(** A position from which the next store of the worker is still preceded
    by a call of [std::system]. *)
Definition before_call (pc : fpc) : Prop :=
  match pc with FInCall _ | FStore _ _ => False | _ => True end.


(** What stays true of worker [t] from [sy] to [sy'], with [running]
    false, when [n] of the steps in between were its own and [tr] is what
    happened. *)
Definition fwinding_down (t : tid) (sy sy' : FSys) (n : nat)
    (tr : list (tid * event)) : Prop :=
  running (fapp sy') = false
  /\ (fsteps_left (fpc_of t sy') <= fsteps_left (fpc_of t sy) - n)%nat
  /\ (call_pending (fpc_of t sy') + events_of t is_system tr
      <= call_pending (fpc_of t sy))%nat
  /\ (fsleep_pending (fpc_of t sy') + events_of t is_sleep tr
      <= fsleep_pending (fpc_of t sy))%nat.

(** ** Sample inputs *)

(** A search path with leading, doubled and trailing colons; only the
    serial script is installed, under [/sbin]. *)
Definition env_colons : Env :=
  mkEnv (Some ":/opt/bin::/sbin:")
        (fun p => String.eqb p "/sbin/test_serial.sh").

Definition env_plain : Env :=
  mkEnv (Some "/opt/bin:/sbin")
        (fun p => String.eqb p "/sbin/test_serial.sh").

(** Only [test_serial.sh] is installed, in [/usr/bin]. *)
Definition env_serial_only : Env :=
  mkEnv (Some "/usr/bin")
        (fun p => String.eqb p "/usr/bin/test_serial.sh").

(** A stopped program caught in mid-flight: the network worker about to
    sleep for the sixth time, the serial worker with a call in progress. *)
Definition fsys_stopped_midway : FSys :=
  mkFSys (mkAppState Ok Fail false) (FSleep "net" 5) (FInCall "ser").


(** A fixed-pitch stand-in for [fl_measure]. *)
Definition measure_fixed (s : string) : Z * Z :=
  (7 * Z.of_nat (String.length s), 14).

(** ** Further observations on runs *)

Definition is_stop (c : choice) : bool :=
  match c with UiStop => true | _ => false end.

Definition is_timer (c : choice) : bool :=
  match c with UiTimer => true | _ => false end.

(** The circle outlines a sequence of toolkit calls strokes: left edge,
    top edge, diameter and the colour selected by the latest [fl_color]. *)
Fixpoint outlined_circles (cur : Fl_Color) (tr : list event)
  : list (Z * Z * Z * Fl_Color) :=
  match tr with
  | [] => []
  | EvFl (fl_color c) :: tr' => outlined_circles c tr'
  | EvFl (fl_arc x y w _ _ _) :: tr' =>
      (x, y, w, cur) :: outlined_circles cur tr'
  | _ :: tr' => outlined_circles cur tr'
  end.

(** The texts a sequence of toolkit calls draws, with their positions. *)
Fixpoint drawn_texts (tr : list event) : list (string * Z * Z) :=
  match tr with
  | [] => []
  | EvFl (fl_draw s x y) :: tr' => (s, x, y) :: drawn_texts tr'
  | _ :: tr' => drawn_texts tr'
  end.

(** The command lines thread [t] handed to [std::system], in order. *)
Fixpoint commands_of (t : tid) (tr : list (tid * event)) : list string :=
  match tr with
  | [] => []
  | (t', EvSystem cmd) :: tr' =>
      if tid_eqb t' t then cmd :: commands_of t tr' else commands_of t tr'
  | _ :: tr' => commands_of t tr'
  end.

(** The paths thread [t] handed to [access], in order. *)
Fixpoint accesses_of (t : tid) (tr : list (tid * event)) : list string :=
  match tr with
  | [] => []
  | (t', EvAccess path) :: tr' =>
      if tid_eqb t' t then path :: accesses_of t tr' else accesses_of t tr'
  | _ :: tr' => accesses_of t tr'
  end.

(** The stores to the running flag in a trace, with the storing thread. *)
Fixpoint running_stores (tr : list (tid * event)) : list (tid * bool) :=
  match tr with
  | [] => []
  | (t, EvStoreRunning b) :: tr' => (t, b) :: running_stores tr'
  | _ :: tr' => running_stores tr'
  end.

(** A worker left alone for one round of its loop: the loop check, the
    command, 40 sleep checks with their sleeps, and the final sleep check. *)
Definition network_rounds (rcs : list Z) : list choice :=
  flat_map (fun rc => repeat (RunNetwork rc) 83) rcs.

Definition serial_rounds (rcs : list Z) : list choice :=
  flat_map (fun rc => repeat (RunSerial rc) 83) rcs.

(** The sleep counter [i] of a worker is within the bounds of its [for]
    loop. *)
Definition pc_bounded (pc : wpc) : Prop :=
  match pc with
  | PFor _ i => 0 <= i <= 40
  | PSleep _ i => 0 <= i < 40
  | _ => True
  end.

(** The script a worker thread looks for; the UI thread has none. *)
Definition script_of (t : tid) : string :=
  match t with
  | TNetwork => "test_network.sh"
  | TSerial => "test_serial.sh"
  | TUi => EmptyString
  end.

(** What a worker's locals must be once it is past its entry step: the
    command line built from the resolved, non-empty script path. *)
Definition pc_resolved (e : Env) (script : string) (pc : wpc) : Prop :=
  match pc with
  | PEntry | PReturn => True
  | PWhile cmd | PBody cmd | PFor cmd _ | PSleep cmd _ =>
      cmd = command_line (resolve_path e script)
      /\ resolve_path e script <> EmptyString
  end.

(** Only [/usr/bin/test_network.sh] and [/opt/bin/test_serial.sh] are
    installed; the search path lists [/opt/bin] only. *)
Definition env_both : Env :=
  mkEnv (Some "/opt/bin")
        (fun p => String.eqb p "/usr/bin/test_network.sh"
                  || String.eqb p "/opt/bin/test_serial.sh").

(** * Theorems *)

(** ** Path resolution *)

Lemma getline_extract_split (ss : string) :
  exists tail,
    split_colon ss = fst (getline_extract ss ":") :: tail /\
    filter nonempty tail = path_dirs (snd (getline_extract ss ":")).
Proof.
  induction ss as [|c rest IH]; simpl.
  - exists []. split; reflexivity.
  - destruct (Ascii.eqb c ":"); simpl.
    + exists (split_colon rest). split; reflexivity.
    + destruct IH as (tail & Hs & Hf).
      destruct (getline_extract rest ":") as [dir rest'] eqn:Hg; simpl in *.
      rewrite Hs. exists tail. split; [reflexivity | exact Hf].
Qed.

Lemma getline_extract_shrinks (ss : string) :
  ss <> EmptyString ->
  (String.length (snd (getline_extract ss ":")) < String.length ss)%nat.
Proof.
  induction ss as [|c rest IH]; intros Hne; [congruence|].
  simpl. destruct (Ascii.eqb c ":"); simpl; [lia|].
  destruct rest as [|c' rest'].
  - simpl. lia.
  - assert (H : String c' rest' <> EmptyString) by discriminate.
    specialize (IH H).
    destruct (getline_extract (String c' rest') ":") as [dir r] eqn:Hg.
    simpl in *. lia.
Qed.

Section ResolveFacts.

Variable e : Env.
Variable script : string.

Let hit := access_X_OK e.
Let cand := candidate_of script.

(** The [PATH] loop is a first-hit search over the non-empty entries,
    whenever the fuel exceeds the number of characters left. *)
Lemma path_loop_spec (fuel : nat) (ss : string) :
  (String.length ss < fuel)%nat ->
  path_loop e script fuel ss
  = (find hit (map cand (path_dirs ss)),
     probed_until hit (map cand (path_dirs ss))).
Proof.
  revert ss. induction fuel as [|fuel IH]; intros ss Hlen; [lia|].
  destruct ss as [|c rest]; [reflexivity|].
  cbn [path_loop getline].
  assert (Hne : String c rest <> EmptyString) by discriminate.
  pose proof (getline_extract_shrinks _ Hne) as Hsh.
  destruct (getline_extract_split (String c rest)) as (tail & Hs & Hf).
  destruct (getline_extract (String c rest) ":") as [dir rest'] eqn:Hg.
  cbn [fst snd] in *.
  assert (Hfuel : (String.length rest' < fuel)%nat) by lia.
  unfold path_dirs at 1 2. rewrite Hs. cbn [filter].
  rewrite Hf.
  replace (nonempty dir) with (negb (string_empty dir)) by reflexivity.
  destruct (string_empty dir) eqn:Hd; cbn [negb].
  - apply IH, Hfuel.
  - cbn [map find probed_until]. fold cand hit.
    destruct (hit (cand dir)); [reflexivity|].
    rewrite (IH rest' Hfuel). reflexivity.
Qed.

(** More fuel than [S (length sp)] changes nothing: the loop always ends
    by exhausting the stream, never by exhausting the fuel. *)
Lemma path_loop_fuel (fuel : nat) (sp : string) :
  (String.length sp < fuel)%nat ->
  path_loop e script fuel sp
  = path_loop e script (S (String.length sp)) sp.
Proof.
  intros H. rewrite !path_loop_spec by lia. reflexivity.
Qed.

Lemma fallback_loop_spec (fb : list string) :
  fallback_loop e script fb
  = (find hit (map cand fb), probed_until hit (map cand fb)).
Proof.
  induction fb as [|dir fb IH]; [reflexivity|].
  cbn [fallback_loop map find probed_until]. fold cand hit.
  destruct (hit (cand dir)); [reflexivity|].
  rewrite IH. reflexivity.
Qed.

End ResolveFacts.

Lemma find_app_hit {A : Type} (f : A -> bool) (l1 l2 : list A) :
  find f (l1 ++ l2) =
  match find f l1 with Some a => Some a | None => find f l2 end.
Proof.
  induction l1 as [|a l1 IH]; simpl; [reflexivity|].
  destruct (f a); [reflexivity | exact IH].
Qed.

Lemma probed_until_app (hit : string -> bool) (l1 l2 : list string) :
  probed_until hit (l1 ++ l2) =
  match find hit l1 with
  | Some _ => probed_until hit l1
  | None => (probed_until hit l1 ++ probed_until hit l2)%list
  end.
Proof.
  induction l1 as [|a l1 IH]; simpl; [reflexivity|].
  destruct (hit a); [reflexivity|].
  rewrite IH. destruct (find hit l1); reflexivity.
Qed.

Lemma resolve_path_trace_spec (e : Env) (script : string) :
  resolve_path_trace e script
  = (first_hit (access_X_OK e) (map (candidate_of script) (search_dirs e)),
     probed_until (access_X_OK e) (map (candidate_of script) (search_dirs e))).
Proof.
  unfold resolve_path_trace, search_dirs, first_hit.
  rewrite fallback_loop_spec, map_app, find_app_hit, probed_until_app.
  destruct (getenv_PATH e) as [sp|].
  - rewrite path_loop_spec by lia.
    destruct (find _ (map _ (path_dirs sp))); [reflexivity|].
    destruct (find _ (map _ fallbacks)); reflexivity.
  - cbn [map find probed_until List.app].
    destruct (find _ (map _ fallbacks)); reflexivity.
Qed.

Lemma string_length_app (s1 s2 : string) :
  String.length (s1 ++ s2) = (String.length s1 + String.length s2)%nat.
Proof.
  induction s1 as [|c s1 IH]; simpl; [reflexivity | rewrite IH; reflexivity].
Qed.

Lemma candidate_of_length (script dir : string) :
  String.length (candidate_of script dir)
  = (String.length dir + 1 + String.length script)%nat.
Proof.
  unfold candidate_of. rewrite !string_length_app. simpl. lia.
Qed.

Lemma candidate_of_not_empty (script dir : string) :
  candidate_of script dir <> EmptyString.
Proof.
  intros H. apply (f_equal String.length) in H.
  rewrite candidate_of_length in H. simpl in H. lia.
Qed.

Lemma first_hit_empty_iff (hit : string -> bool) (script : string) (dirs : list string) :
  first_hit hit (map (candidate_of script) dirs) = EmptyString <->
  (forall dir, In dir dirs -> hit (candidate_of script dir) = false).
Proof.
  unfold first_hit. induction dirs as [|d dirs IH]; simpl.
  - split; [intros _ dir [] | reflexivity].
  - destruct (hit (candidate_of script d)) eqn:Hd.
    + split.
      * intros H. exfalso. exact (candidate_of_not_empty _ _ H).
      * intros H. specialize (H d (or_introl eq_refl)). congruence.
    + rewrite IH. split.
      * intros H dir [<-|Hin]; [exact Hd | exact (H dir Hin)].
      * intros H dir Hin. apply H. right. exact Hin.
Qed.

Lemma first_hit_at (hit : string -> bool) (script : string)
    (pre : list string) (dir : string) (post : list string) :
  (forall d, In d pre -> hit (candidate_of script d) = false) ->
  hit (candidate_of script dir) = true ->
  first_hit hit (map (candidate_of script) (pre ++ dir :: post))
  = candidate_of script dir.
Proof.
  unfold first_hit. intros Hpre Hdir.
  induction pre as [|d pre IH]; simpl.
  - rewrite Hdir. reflexivity.
  - rewrite (Hpre d (or_introl eq_refl)).
    apply IH. intros d' Hin. apply Hpre. right. exact Hin.
Qed.

Lemma probed_until_incl (hit : string -> bool) (cands : list string) (c : string) :
  In c (probed_until hit cands) -> In c cands.
Proof.
  induction cands as [|a cands IH]; simpl; [tauto|].
  destruct (hit a); simpl; intuition.
Qed.

Lemma search_dirs_nonempty (e : Env) (dir : string) :
  In dir (search_dirs e) -> dir <> EmptyString.
Proof.
  unfold search_dirs. rewrite in_app_iff. intros [Hin|Hin].
  - destruct (getenv_PATH e) as [sp|]; [|destruct Hin].
    unfold path_dirs in Hin. apply filter_In in Hin. destruct Hin as [_ Hne].
    intros ->. discriminate Hne.
  - unfold fallbacks in Hin. simpl in Hin.
    destruct Hin as [<-|[<-|[]]]; discriminate.
Qed.

Lemma find_ext_hit (f g : string -> bool) (l : list string) :
  (forall p, f p = g p) -> find f l = find g l.
Proof.
  intros H. induction l as [|a l IH]; simpl; [reflexivity|].
  rewrite H, IH. reflexivity.
Qed.

Lemma probed_until_ext (f g : string -> bool) (l : list string) :
  (forall p, f p = g p) -> probed_until f l = probed_until g l.
Proof.
  intros H. induction l as [|a l IH]; simpl; [reflexivity|].
  rewrite H, IH. reflexivity.
Qed.

Lemma search_dirs_entries (e : Env) :
  search_dirs e = (filter nonempty (path_entries e) ++ fallbacks)%list.
Proof.
  unfold search_dirs, path_entries, path_dirs.
  destruct (getenv_PATH e); reflexivity.
Qed.

(** C6.  For every script name and every value of the search-path variable,
    [resolve_path] probes the candidates [dir/script] in this order: the
    directories of the search-path variable as listed, then the fallback
    directories as listed, stopping at the first one whose candidate passes
    the executable test; that first hit is the result, and the result is the
    empty string exactly when no searched directory has such a candidate. *)
Theorem resolve_path_search_order (e : Env) (script : string) :
  let hit := access_X_OK e in
  let cands := map (candidate_of script) (search_dirs e) in
  resolve_path_probes e script = probed_until hit cands
  /\ resolve_path e script = first_hit hit cands
  /\ (forall pre dir post,
        search_dirs e = (pre ++ dir :: post)%list ->
        (forall d, In d pre -> hit (candidate_of script d) = false) ->
        hit (candidate_of script dir) = true ->
        resolve_path e script = candidate_of script dir)
  /\ (resolve_path e script = EmptyString <->
      forall dir, In dir (search_dirs e) ->
                  hit (candidate_of script dir) = false).
Proof.
  intros hit cands.
  unfold resolve_path, resolve_path_probes.
  rewrite resolve_path_trace_spec. cbn [fst snd].
  repeat split.
  - intros pre dir post Heq Hpre Hdir. rewrite Heq.
    apply first_hit_at; assumption.
  - apply first_hit_empty_iff.
  - apply first_hit_empty_iff.
Qed.

(** C10.  Empty entries of the colon-separated search path (leading,
    trailing or doubled colons) contribute no candidate: every path probed
    is [dir/script] for a non-empty [dir], so neither the bare script name
    nor the root-level [/script] is ever probed on their account, and two
    search-path values with the same non-empty entries resolve alike. *)
Theorem resolve_path_skips_empty_entries (e : Env) (script : string) :
  (forall c, In c (resolve_path_probes e script) ->
     exists dir, dir <> EmptyString /\ c = candidate_of script dir)
  /\ ~ In script (resolve_path_probes e script)
  /\ ~ In (candidate_of script EmptyString) (resolve_path_probes e script)
  /\ (forall e',
        (forall p, access_X_OK e' p = access_X_OK e p) ->
        filter nonempty (path_entries e') = filter nonempty (path_entries e) ->
        resolve_path e' script = resolve_path e script /\
        resolve_path_probes e' script = resolve_path_probes e script).
Proof.
  assert (Hfrom : forall c, In c (resolve_path_probes e script) ->
            exists dir, dir <> EmptyString /\ c = candidate_of script dir).
  { intros c Hin. unfold resolve_path_probes in Hin.
    rewrite resolve_path_trace_spec in Hin. cbn [snd] in Hin.
    apply probed_until_incl, in_map_iff in Hin.
    destruct Hin as (dir & <- & Hdir).
    exists dir. split; [exact (search_dirs_nonempty e dir Hdir) | reflexivity]. }
  assert (Hlen : forall c, In c (resolve_path_probes e script) ->
            (String.length script + 1 < String.length c)%nat).
  { intros c Hin. destruct (Hfrom c Hin) as (dir & Hne & ->).
    rewrite candidate_of_length. destruct dir; [congruence | simpl; lia]. }
  repeat split.
  - exact Hfrom.
  - intros Hin. apply Hlen in Hin. lia.
  - intros Hin. apply Hlen in Hin.
    rewrite candidate_of_length in Hin. simpl in Hin. lia.
  - unfold resolve_path. rewrite !resolve_path_trace_spec. cbn [fst].
    rewrite !search_dirs_entries, H0. unfold first_hit.
    rewrite (find_ext_hit _ _ _ H). reflexivity.
  - unfold resolve_path_probes. rewrite !resolve_path_trace_spec. cbn [snd].
    rewrite !search_dirs_entries, H0.
    apply probed_until_ext, H.
Qed.

Lemma resolve_path_search_order_witness :
  resolve_path env_colons "test_serial.sh" = "/sbin/test_serial.sh".
Proof.
  apply (proj1 (proj2 (proj2
           (resolve_path_search_order env_colons "test_serial.sh")))
         ["/opt/bin"] "/sbin" fallbacks).
  - reflexivity.
  - intros d [<-|[]]. reflexivity.
  - reflexivity.
Defined.

Lemma resolve_path_skips_empty_entries_witness :
  resolve_path env_colons "test_serial.sh"
  = resolve_path env_plain "test_serial.sh".
Proof.
  refine (proj1 (proj2 (proj2 (proj2
            (resolve_path_skips_empty_entries env_plain "test_serial.sh")))
          env_colons _ _)).
  - intros p. reflexivity.
  - reflexivity.
Defined.

(** ** Probe outcome *)



(** ** Rendering *)

Lemma make_status_line_run (s : AppState) :
  make_status_line s
  = (spec_status_line (network s) (serial s), s,
     [EvLoad CNetwork; EvLoad CSerial]).
Proof.
  destruct s as [w x r]. destruct w, x; reflexivity.
Qed.

(** C4.  For every pair of probe states, the status line composed from a
    snapshot holding them is exactly [network=<W>, serial=<X>] with [OK],
    [down] or [unknown] in each place; in particular (Ok, Fail) gives
    [network=OK, serial=down] and (Unknown, Unknown) gives
    [network=unknown, serial=unknown]. *)
Theorem make_status_line_format :
  (forall w x r, status_line (mkAppState w x r) = spec_status_line w x)
  /\ (forall w x, spec_status_line w x
                  = "network=" ++ to_str w ++ ", serial=" ++ to_str x)
  /\ (forall r, status_line (mkAppState Ok Fail r) = "network=OK, serial=down")
  /\ (forall r, status_line (mkAppState Unknown Unknown r)
                = "network=unknown, serial=unknown").
Proof.
  split; [|split; [|split]].
  - intros w x r. unfold status_line. rewrite make_status_line_run. reflexivity.
  - intros [] []; reflexivity.
  - intros r. reflexivity.
  - intros r. reflexivity.
Qed.

Lemma draw_run (fl_measure : string -> Z * Z) (wg : Widget) (s : AppState) :
  let d := diameter wg in
  let top := int_add (wy wg) 10 in
  let x0 := fst (fst (circle_xs wg)) in
  let x1 := snd (fst (circle_xs wg)) in
  let x2 := snd (circle_xs wg) in
  exists captions,
    draw fl_measure wg s
    = (tt, s,
       [EvLoad CNetwork; EvLoad CSerial;
        EvFl (fl_color (color_for (network s)));
        EvFl (fl_pie x0 top d d 0 360);
        EvFl (fl_color FL_DARK3);
        EvFl (fl_arc x0 top d d 0 360);
        EvFl (fl_color (color_for (serial s)));
        EvFl (fl_pie x1 top d d 0 360);
        EvFl (fl_color FL_DARK3);
        EvFl (fl_arc x1 top d d 0 360);
        EvFl (fl_color (fl_rgb_color 128 128 128));
        EvFl (fl_pie x2 top d d 0 360);
        EvFl (fl_color FL_DARK3);
        EvFl (fl_arc x2 top d d 0 360)] ++ captions)%list
    /\ Forall (fun ev => match ev with
                         | EvFl (fl_font _ _) | EvFl (fl_draw _ _ _)
                         | EvFl (fl_color _) => True
                         | _ => False
                         end) captions.
Proof.
  intros d top x0 x1 x2.
  unfold draw, bind, draw_caption_centered, draw_circle, emit,
    network_load, serial_load.
  subst d top x0 x1 x2. unfold circle_xs. cbn [fst snd].
  destruct (fl_measure "network") as [tw0 th0].
  destruct (fl_measure "serial") as [tw1 th1].
  eexists. split.
  - cbn [List.app]. reflexivity.
  - repeat constructor.
Qed.

(** C5.  [color_for] maps Ok to green, Fail to red and Unknown to gray, and
    whatever the shared state holds the third circle painted by [draw] is
    filled gray, the first two being filled with the colours of the network
    and the serial state. *)
Theorem color_for_mapping :
  color_for Ok = FL_GREEN
  /\ color_for Fail = FL_RED
  /\ color_for Unknown = fl_rgb_color 128 128 128
  /\ (forall fl_measure wg s c,
        map snd (filled_circles c (snd (draw fl_measure wg s)))
        = [color_for (network s); color_for (serial s);
           fl_rgb_color 128 128 128]).
Proof.
  split; [reflexivity|]. split; [reflexivity|]. split; [reflexivity|].
  intros fl_measure wg s c.
  destruct (draw_run fl_measure wg s) as (captions & -> & Hcap).
  cbn [snd List.app filled_circles map]. f_equal. f_equal. f_equal.
  generalize FL_DARK3.
  induction Hcap as [|ev captions Hev _ IH]; intros cur; [reflexivity|].
  destruct ev as [| | | | | | |[]|]; try contradiction; cbn [filled_circles];
    apply IH.
Qed.

Lemma read_only_event_no_store (ev : event) :
  read_only_event ev -> written_cell ev = None.
Proof.
  destruct ev as [[]| | | | | | | |]; simpl; intros H;
    try reflexivity; contradiction.
Qed.

Lemma draw_read_only (fl_measure : string -> Z * Z) (wg : Widget) (s : AppState) :
  snd (fst (draw fl_measure wg s)) = s
  /\ Forall read_only_event (snd (draw fl_measure wg s)).
Proof.
  destruct (draw_run fl_measure wg s) as (captions & -> & Hcap).
  cbn [fst snd]. split; [reflexivity|].
  apply Forall_app. split.
  - repeat constructor.
  - eapply Forall_impl; [|exact Hcap].
    intros [| | | | | | |[]|]; simpl; tauto.
Qed.

Lemma ui_timer_cb_run (fl_measure : string -> Z * Z) (wg : Widget) (s : AppState) :
  ui_timer_cb fl_measure wg s
  = (tt, s,
     [EvLoad CNetwork; EvLoad CSerial;
      EvCopyLabel (spec_status_line (network s) (serial s))]
     ++ snd (draw fl_measure wg s))%list.
Proof.
  unfold ui_timer_cb, bind, emit.
  rewrite make_status_line_run.
  pose proof (draw_read_only fl_measure wg s) as [Hs _].
  destruct (draw fl_measure wg s) as [[[] s1] tr].
  cbn [fst snd] in *. subst s1. reflexivity.
Qed.

Lemma ui_timer_cb_read_only (fl_measure : string -> Z * Z) (wg : Widget) (s : AppState) :
  Forall read_only_event (snd (ui_timer_cb fl_measure wg s)).
Proof.
  rewrite ui_timer_cb_run. cbn [snd]. apply Forall_app. split.
  - repeat constructor.
  - apply draw_read_only.
Qed.

Lemma read_only_quiet (tr : list event) :
  Forall read_only_event tr ->
  filter is_system tr = [] /\ filter is_sleep tr = [].
Proof.
  induction 1 as [|ev tr Hev _ [IH1 IH2]]; [split; reflexivity|].
  destruct ev as [[]| | | | | | | |]; try contradiction; cbn [filter is_system is_sleep];
    split; assumption.
Qed.

Lemma status_line_fits (w x : ProbeState) :
  (String.length (spec_status_line w x) < 128)%nat.
Proof.
  destruct w, x; vm_compute; repeat constructor.
Qed.

(** C8.  From any shared state, composing the status line and drawing the
    panel (separately, and together as the timer callback does) leaves every
    field of the shared state as it was; the only events are loads of the
    atomics and toolkit calls, none of them a store; the line fits the
    128-byte buffer, so nothing is cut off; and from the freshly initialised
    all-Unknown state the label is [network=unknown, serial=unknown]. *)
Theorem render_path_read_only (fl_measure : string -> Z * Z) (wg : Widget) (s : AppState) :
  (snd (fst (make_status_line s)) = s
   /\ Forall read_only_event (snd (make_status_line s)))
  /\ (snd (fst (draw fl_measure wg s)) = s
      /\ Forall read_only_event (snd (draw fl_measure wg s)))
  /\ (snd (fst (ui_timer_cb fl_measure wg s)) = s
      /\ Forall read_only_event (snd (ui_timer_cb fl_measure wg s))
      /\ Forall (fun ev => written_cell ev = None)
                (snd (ui_timer_cb fl_measure wg s)))
  /\ (String.length ("network=" ++ to_str (network s)
                     ++ ", serial=" ++ to_str (serial s)) < 128)%nat
  /\ In (EvCopyLabel "network=unknown, serial=unknown")
        (snd (ui_timer_cb fl_measure wg AppState_init)).
Proof.
  pose proof (ui_timer_cb_run fl_measure wg) as Hui.
  pose proof (draw_read_only fl_measure wg s) as [Hds Hdr].
  pose proof (ui_timer_cb_read_only fl_measure wg s) as Hro.
  split; [|split; [|split; [|split]]].
  - rewrite make_status_line_run. cbn [fst snd].
    split; [reflexivity | repeat constructor].
  - split; assumption.
  - split; [rewrite Hui; reflexivity|]. split; [exact Hro|].
    eapply Forall_impl; [|exact Hro]. exact read_only_event_no_store.
  - destruct s as [w x r]. exact (status_line_fits w x).
  - rewrite Hui. cbn [snd List.app]. right. right. left. reflexivity.
Qed.

(** ** Layout *)

Lemma wrap_int_id (z : Z) : in_int z -> wrap_int z = z.
Proof.
  unfold in_int, wrap_int. change (2 ^ 31) with 2147483648. intros H.
  rewrite Z.mod_small by lia. lia.
Qed.

Lemma wrap_int_small (z : Z) :
  - 2147483648 <= z <= 2147483647 -> wrap_int z = z.
Proof.
  intros H. apply wrap_int_id. unfold in_int.
  change (2 ^ 31) with 2147483648. lia.
Qed.

Lemma diameter_clamped (wg : Widget) : 60 <= diameter wg <= 100.
Proof.
  unfold diameter.
  destruct (Z.gtb_spec (int_sub (Z.quot (available wg) 3) 10) 100) as [Hg|Hg].
  - simpl. lia.
  - destruct (Z.ltb_spec (int_sub (Z.quot (available wg) 3) 10) 60); lia.
Qed.

Lemma diameter_Z_clamped (w : Z) : 60 <= diameter_Z w <= 100.
Proof.
  unfold diameter_Z.
  destruct (Z.gtb_spec (Z.quot (w - 20) 3 - 10) 100) as [Hg|Hg].
  - simpl. lia.
  - destruct (Z.ltb_spec (Z.quot (w - 20) 3 - 10) 60); lia.
Qed.

(** Where nothing wraps, the layout values are the exact integer ones. *)
Lemma available_exact (wg : Widget) :
  width_in_range wg -> available wg = ww wg - 20.
Proof.
  unfold width_in_range, available, int_sub, int_mul, margin. intros H.
  rewrite (wrap_int_small (10 * 2)) by lia.
  apply wrap_int_small. lia.
Qed.

Lemma diameter_exact (wg : Widget) :
  width_in_range wg -> diameter wg = diameter_Z (ww wg).
Proof.
  intros H. unfold diameter, diameter_Z. rewrite (available_exact wg H).
  unfold width_in_range in H. unfold int_sub.
  rewrite (wrap_int_small (Z.quot (ww wg - 20) 3 - 10))
    by (Z.to_euclidean_division_equations; lia).
  reflexivity.
Qed.

Lemma layout_in_range_width (wg : Widget) :
  layout_in_range wg -> width_in_range wg.
Proof. unfold layout_in_range, width_in_range. lia. Qed.

Lemma gap_exact (wg : Widget) :
  layout_in_range wg -> gap wg = gap_Z (ww wg).
Proof.
  intros H. pose proof (layout_in_range_width wg H) as Hw.
  unfold gap, gap_Z. rewrite (available_exact wg Hw), (diameter_exact wg Hw).
  pose proof (diameter_Z_clamped (ww wg)) as Hd.
  unfold layout_in_range in H. unfold int_sub, int_mul.
  rewrite (wrap_int_small (3 * diameter_Z (ww wg))) by lia.
  rewrite (wrap_int_small (ww wg - 20 - 3 * diameter_Z (ww wg))) by lia.
  reflexivity.
Qed.

Lemma gap_Z_bounds (w : Z) :
  - 1073741824 <= w <= 1073741824 ->
  - 536871072 <= gap_Z w <= 536870912.
Proof.
  intros H. pose proof (diameter_Z_clamped w) as Hd. unfold gap_Z.
  Z.to_euclidean_division_equations. lia.
Qed.

Lemma circle_xs_exact (wg : Widget) :
  layout_in_range wg ->
  circle_xs wg
  = (wx wg + 10,
     wx wg + 10 + diameter_Z (ww wg) + gap_Z (ww wg),
     wx wg + 10 + 2 * (diameter_Z (ww wg) + gap_Z (ww wg))).
Proof.
  intros H. pose proof (layout_in_range_width wg H) as Hw.
  unfold circle_xs. rewrite (gap_exact wg H), (diameter_exact wg Hw).
  pose proof (diameter_Z_clamped (ww wg)) as Hd.
  destruct H as [Hww Hwx].
  pose proof (gap_Z_bounds (ww wg) Hww) as Hg.
  unfold int_add, int_mul, margin.
  rewrite (wrap_int_small (wx wg + 10)) by lia.
  rewrite (wrap_int_small (wx wg + 10 + diameter_Z (ww wg))) by lia.
  rewrite (wrap_int_small (wx wg + 10 + diameter_Z (ww wg) + gap_Z (ww wg)))
    by lia.
  rewrite (wrap_int_small (diameter_Z (ww wg) + gap_Z (ww wg))) by lia.
  rewrite (wrap_int_small (2 * (diameter_Z (ww wg) + gap_Z (ww wg)))) by lia.
  rewrite (wrap_int_small
             (wx wg + 10 + 2 * (diameter_Z (ww wg) + gap_Z (ww wg)))) by lia.
  reflexivity.
Qed.

Lemma diameter_Z_cases (w : Z) :
  (w <= 232 /\ diameter_Z w = 60)
  \/ (233 <= w <= 349 /\ diameter_Z w = Z.quot (w - 20) 3 - 10)
  \/ (350 <= w /\ diameter_Z w = 100).
Proof.
  unfold diameter_Z.
  destruct (Z.gtb_spec (Z.quot (w - 20) 3 - 10) 100) as [Hg|Hg].
  - right. right. cbn. split; [|reflexivity].
    Z.to_euclidean_division_equations. lia.
  - destruct (Z.ltb_spec (Z.quot (w - 20) 3 - 10) 60) as [Hl|Hl].
    + left. split; [|reflexivity].
      Z.to_euclidean_division_equations. lia.
    + assert (Hw : 230 <= w <= 352)
        by (Z.to_euclidean_division_equations; lia).
      destruct (Z_le_gt_dec w 232) as [Hlo|Hlo].
      * left. split; [lia|].
        Z.to_euclidean_division_equations. lia.
      * destruct (Z_le_gt_dec w 349) as [Hle|Hgt].
        -- right. left. split; [lia | reflexivity].
        -- right. right. split; [lia|].
           Z.to_euclidean_division_equations. lia.
Qed.

Lemma diameter_Z_fits (w : Z) :
  (199 <= w -> 3 * diameter_Z w <= w - 20 + 1)
  /\ (200 <= w -> 3 * diameter_Z w <= w - 20).
Proof.
  destruct (diameter_Z_cases w) as [[H1 H2]|[[H1 H2]|[H1 H2]]]; rewrite H2;
    (split; intros Hw); try lia;
    Z.to_euclidean_division_equations; lia.
Qed.

Lemma inside_Z (x w : Z) :
  70 <= w ->
  let d := diameter_Z w in
  let g := gap_Z w in
  (x <= x + 10 /\ x + 10 + d <= x + w)
  /\ (x <= x + 10 + d + g /\ x + 10 + d + g + d <= x + w)
  /\ (x <= x + 10 + 2 * (d + g) /\ x + 10 + 2 * (d + g) + d <= x + w).
Proof.
  intros Hw d g. subst d g.
  pose proof (diameter_Z_clamped w) as Hd.
  assert (Hbig : 60 < diameter_Z w -> 3 * diameter_Z w <= w - 20 - 30).
  { destruct (diameter_Z_cases w) as [[H1 H2]|[[H1 H2]|[H1 H2]]]; rewrite H2;
      intros Hlt; try lia; Z.to_euclidean_division_equations; lia. }
  unfold gap_Z. Z.to_euclidean_division_equations. lia.
Qed.

Lemma circles_inside_wide (wg : Widget) :
  layout_in_range wg -> 70 <= ww wg -> circles_inside wg.
Proof.
  intros H Hw. unfold circles_inside.
  rewrite (circle_xs_exact wg H),
    (diameter_exact wg (layout_in_range_width wg H)).
  unfold circle_inside. exact (inside_Z (wx wg) (ww wg) Hw).
Qed.

Lemma gap_nonneg_wide (wg : Widget) :
  layout_in_range wg -> 199 <= ww wg -> 0 <= gap wg.
Proof.
  intros H Hw. rewrite (gap_exact wg H). unfold gap_Z.
  pose proof (proj1 (diameter_Z_fits (ww wg)) Hw) as Hf.
  Z.to_euclidean_division_equations. lia.
Qed.

(** The arithmetic does wrap outside those ranges: at the smallest [int]
    width [w() - 20] is a large positive number and the diameter is 100, and
    at the largest [int] position the left edges are negative. *)
Lemma layout_wraps_at_extremes :
  diameter (mkWidget 0 0 (-2147483648) 0) = 100
  /\ circle_xs (mkWidget 2147483647 0 300 0)
     = (-2147483639, -2147483541, -2147483443).
Proof. split; vm_compute; reflexivity. Qed.

(** C9 as stated fails on a narrow panel: a panel 30 pixels wide still gets
    circles of diameter 60, which cannot lie inside it. *)
Lemma circles_overflow_narrow_panel :
  diameter (mkWidget 10 10 30 160) = 60
  /\ circle_xs (mkWidget 10 10 30 160) = (20, -5, -30)
  /\ ~ circles_inside (mkWidget 10 10 30 160).
Proof.
  split; [reflexivity|]. split; [reflexivity|].
  unfold circles_inside, circle_inside.
  change (circle_xs (mkWidget 10 10 30 160)) with (20, -5, -30).
  change (diameter (mkWidget 10 10 30 160)) with 60.
  cbn. lia.
Qed.

(** C9 (amended).  For every panel width, in [int] arithmetic as the
    program computes it, the layout has one diameter for all three circles,
    clamped to 60..100, and [draw] paints exactly three circles of that
    diameter on one row.  Where the arithmetic does not wrap (width at most
    2^30 in magnitude, x position at most 2^29), the left edges are
    separated by the same gap; the three circles lie inside the panel width
    whenever the panel is at least 70 pixels wide, and the gap is
    non-negative from 200 pixels. *)
Theorem panel_layout (wg : Widget) :
  let d := diameter wg in
  let top := int_add (wy wg) 10 in
  let x0 := fst (fst (circle_xs wg)) in
  let x1 := snd (fst (circle_xs wg)) in
  let x2 := snd (circle_xs wg) in
  60 <= d <= 100
  /\ (forall fl_measure s c,
        map fst (filled_circles c (snd (draw fl_measure wg s)))
        = [(x0, top, d); (x1, top, d); (x2, top, d)])
  /\ (layout_in_range wg ->
      x1 - (x0 + d) = gap wg
      /\ x2 - (x1 + d) = gap wg
      /\ (70 <= ww wg -> circles_inside wg)
      /\ (200 <= ww wg -> 0 <= gap wg)).
Proof.
  intros d top x0 x1 x2.
  split; [exact (diameter_clamped wg)|].
  split.
  { intros fl_measure s c.
    destruct (draw_run fl_measure wg s) as (captions & -> & Hcap).
    cbn [snd List.app filled_circles map fst]. fold d top x0 x1 x2.
    f_equal. f_equal. f_equal.
    generalize FL_DARK3.
    induction Hcap as [|ev captions Hev _ IH]; intros cur; [reflexivity|].
    destruct ev as [| | | | | | |[]|]; try contradiction; cbn [filled_circles];
      apply IH. }
  intros H. subst d x0 x1 x2.
  rewrite (circle_xs_exact wg H), (gap_exact wg H),
    (diameter_exact wg (layout_in_range_width wg H)).
  cbn [fst snd].
  split; [lia|]. split; [lia|].
  split.
  - intros Hw. apply (circles_inside_wide wg H Hw).
  - intros Hw. rewrite <- (gap_exact wg H). apply (gap_nonneg_wide wg H). lia.
Qed.

Lemma panel_main_in_range : panel_in_range panel_main.
Proof. unfold panel_in_range, layout_in_range. cbn. lia. Qed.

Lemma panel_layout_witness :
  circles_inside panel_main /\ 0 <= gap panel_main.
Proof.
  pose proof (proj2 (proj2 (panel_layout panel_main))
                (proj1 panel_main_in_range)) as H.
  split.
  - apply (proj1 (proj2 (proj2 H))). vm_compute. discriminate.
  - apply (proj2 (proj2 (proj2 H))). vm_compute. discriminate.
Defined.

(** ** Worker loops: which cells a worker writes *)

Lemma filter_map_access (p : event -> bool) (l : list string) :
  (forall path, p (EvAccess path) = false) ->
  filter p (map EvAccess l) = [].
Proof.
  intros H. induction l as [|a l IH]; simpl; [reflexivity|].
  rewrite H. exact IH.
Qed.

Lemma Forall_map_access (P : event -> Prop) (l : list string) :
  (forall path, P (EvAccess path)) -> Forall P (map EvAccess l).
Proof.
  intros H. induction l; simpl; constructor; auto.
Qed.

Ltac solve_writes :=
  repeat match goal with
         | |- _ /\ _ => split
         | |- Forall _ (_ ++ _) => apply Forall_app
         | |- Forall _ (map EvAccess _) =>
             apply Forall_map_access; intros; left; reflexivity
         | |- Forall _ (_ :: _) => apply Forall_cons
         | |- Forall _ [] => apply Forall_nil
         | |- _ = _ => reflexivity
         | |- _ \/ _ => solve [left; reflexivity | right; reflexivity]
         end.

(** [serial_worker] never touches the network cell or the running flag. *)
Lemma serial_worker_step_writes (e : Env) (rc : Z) (pc : wpc) (s : AppState) :
  network (snd (fst (serial_worker_step e rc pc s))) = network s
  /\ running (snd (fst (serial_worker_step e rc pc s))) = running s
  /\ Forall (fun ev => written_cell ev = None \/ written_cell ev = Some CSerial)
            (snd (serial_worker_step e rc pc s)).
Proof.
  destruct pc as [|cmd|cmd|cmd i|cmd i|]; cbn;
    unfold bind, emit;
    try destruct (string_empty (resolve_path e "test_serial.sh"));
    try destruct (i <? 40); cbn; solve_writes.
Qed.

(** Once past its entry step, [network_worker] writes the network cell
    only. *)
Lemma network_worker_loop_writes (e : Env) (rc : Z) (pc : wpc) (s : AppState) :
  pc <> PEntry ->
  serial (snd (fst (network_worker_step e rc pc s))) = serial s
  /\ running (snd (fst (network_worker_step e rc pc s))) = running s
  /\ Forall (fun ev => written_cell ev = None \/ written_cell ev = Some CNetwork)
            (snd (network_worker_step e rc pc s)).
Proof.
  intros Hpc.
  destruct pc as [|cmd|cmd|cmd i|cmd i|]; [congruence| | | | |]; cbn;
    try destruct (i <? 40); cbn; solve_writes.
Qed.

(** The entry step of [network_worker] when its script is missing. *)
Lemma network_worker_entry_missing (e : Env) (rc : Z) (s : AppState) :
  resolve_path e "test_network.sh" = EmptyString ->
  network_worker_step e rc PEntry s
  = (PReturn, mkAppState (network s) Unknown (running s),
     map EvAccess (resolve_path_probes e "test_network.sh")
     ++ [EvStoreSerial Unknown])%list.
Proof.
  intros H. cbn. rewrite H. reflexivity.
Qed.

(** The entry step of [serial_worker] when its script is missing. *)
Lemma serial_worker_entry_missing (e : Env) (rc : Z) (s : AppState) :
  resolve_path e "test_serial.sh" = EmptyString ->
  serial_worker_step e rc PEntry s
  = (PReturn, mkAppState (network s) Unknown (running s),
     map EvAccess (resolve_path_probes e "test_serial.sh")
     ++ [EvStoreSerial Unknown])%list.
Proof.
  intros H. cbn. rewrite H. reflexivity.
Qed.

(** A worker that has returned does nothing more. *)
Lemma worker_returned_stays (e : Env) (rc : Z) (s : AppState) :
  network_worker_step e rc PReturn s = (PReturn, s, [])
  /\ serial_worker_step e rc PReturn s = (PReturn, s, []).
Proof. split; reflexivity. Qed.

(** Apart from the entry step of [network_worker] with its script missing,
    no step of any thread stores into the other probe's cell. *)
Lemma network_worker_step_no_cross (e : Env) (rc : Z) (pc : wpc) (s : AppState) :
  pc <> PEntry \/ resolve_path e "test_network.sh" <> EmptyString ->
  fst (fst (network_worker_step e rc pc s)) <> PEntry
  /\ existsb cross_write
       (map (pair TNetwork) (snd (network_worker_step e rc pc s))) = false.
Proof.
  intros Hok.
  assert (Hacc : forall l, existsb cross_write
                   (map (pair TNetwork) (map EvAccess l)) = false)
    by (induction l; [reflexivity | exact IHl]).
  destruct pc as [|cmd|cmd|cmd i|cmd i|]; cbn.
  - destruct Hok as [Hok|Hok]; [congruence|].
    unfold bind, emit.
    destruct (resolve_path e "test_network.sh") eqn:Hr; [congruence|].
    cbn. rewrite app_nil_r. split; [discriminate | apply Hacc].
  - destruct (running s); split; (discriminate || reflexivity).
  - split; (discriminate || reflexivity).
  - destruct (i <? 40); cbn; [destruct (running s)|];
      split; (discriminate || reflexivity).
  - split; (discriminate || reflexivity).
  - split; [intros H; discriminate H | reflexivity].
Qed.

Lemma serial_worker_step_no_cross (e : Env) (rc : Z) (pc : wpc) (s : AppState) :
  existsb cross_write
    (map (pair TSerial) (snd (serial_worker_step e rc pc s))) = false.
Proof.
  pose proof (serial_worker_step_writes e rc pc s) as (_ & _ & H).
  induction H as [|ev tr Hev _ IH]; [reflexivity|].
  cbn [map existsb]. rewrite IH.
  destruct ev; try reflexivity. destruct Hev as [Hev|Hev]; discriminate Hev.
Qed.

(** X18.  If [test_network.sh] resolves, or the network worker is already
    past its entry step, then under every schedule no worker ever stores
    into the other probe's cell. *)
Lemma exec_no_cross_write (e : Env) (fl_measure : string -> Z * Z) (panel : Widget)
    (sched : list choice) (sy : Sys) :
  net_pc sy <> PEntry \/ resolve_path e "test_network.sh" <> EmptyString ->
  existsb cross_write (snd (exec e fl_measure panel sy sched)) = false.
Proof.
  revert sy. induction sched as [|c sched IH]; intros sy Hok; [reflexivity|].
  cbn [exec].
  assert (Hstep :
    (net_pc (fst (sys_step e fl_measure panel sy c)) <> PEntry
     \/ resolve_path e "test_network.sh" <> EmptyString)
    /\ existsb cross_write (snd (sys_step e fl_measure panel sy c)) = false).
  { destruct c as [rc|rc| |]; cbn [sys_step].
    - pose proof (network_worker_step_no_cross e rc (net_pc sy) (app sy) Hok)
        as [H1 H2].
      destruct (network_worker_step e rc (net_pc sy) (app sy)) as [[pc s] tr].
      cbn [fst snd net_pc] in *. split; [left; exact H1 | exact H2].
    - pose proof (serial_worker_step_no_cross e rc (ser_pc sy) (app sy)) as H.
      destruct (serial_worker_step e rc (ser_pc sy) (app sy)) as [[pc s] tr].
      cbn [fst snd net_pc] in *. split; [exact Hok | exact H].
    - destruct (ui_timer_cb fl_measure panel (app sy)) as [[u s] tr].
      cbn [fst snd net_pc]. split; [exact Hok|].
      induction tr as [|ev tr IHtr]; [reflexivity | exact IHtr].
    - cbn. split; [exact Hok | reflexivity]. }
  destruct Hstep as [Hpc Hcw].
  destruct (sys_step e fl_measure panel sy c) as [sy1 t1].
  specialize (IH sy1 Hpc).
  destruct (exec e fl_measure panel sy1 sched) as [sy2 t2].
  cbn [fst snd] in *. rewrite existsb_app, Hcw, IH. reflexivity.
Qed.

(** C1, at the input where the code departs from it.  With
    [test_network.sh] missing and the serial probe already reported Ok, the
    entry step of [network_worker] stores Unknown into the serial cell: the
    run contains a store by the network thread to the serial cell, and the
    network cell is not written at all. *)
Theorem network_worker_cross_write :
  let r := exec env_serial_only measure_fixed panel_main Sys_init
                [RunSerial 0; RunSerial 0; RunSerial 0; RunNetwork 0] in
  resolve_path env_serial_only "test_network.sh" = EmptyString
  /\ In (TNetwork, EvStoreSerial Unknown) (snd r)
  /\ existsb cross_write (snd r) = true
  /\ events_of TNetwork (fun ev => match ev with EvStoreNetwork _ => true
                                   | _ => false end) (snd r) = 0%nat.
Proof.
  vm_compute. repeat split; auto 20.
Qed.

(** C2, at the input where the code departs from it.  [test_network.sh] is
    missing, [test_serial.sh] is installed and succeeds.  After the serial
    worker has recorded Ok, the network worker's entry step resets the
    serial cell to Unknown and returns; the status line then reports the
    serial probe as unknown although its last run succeeded. *)
Theorem missing_network_script_clobbers_serial :
  let run := exec env_serial_only measure_fixed panel_main Sys_init in
  let before := fst (run [RunSerial 0; RunSerial 0; RunSerial 0]) in
  let after := fst (run [RunSerial 0; RunSerial 0; RunSerial 0; RunNetwork 0]) in
  serial (app before) = Ok
  /\ net_pc before = PEntry
  /\ serial (app after) = Unknown
  /\ network (app after) = Unknown
  /\ net_pc after = PReturn
  /\ ser_pc after = ser_pc before
  /\ status_line (app before) = "network=unknown, serial=OK"
  /\ status_line (app after) = "network=unknown, serial=unknown".
Proof.
  vm_compute. repeat split.
Qed.

(** ** Counting events *)

Lemma events_of_app (t : tid) (p : event -> bool) (a b : list (tid * event)) :
  events_of t p (a ++ b) = (events_of t p a + events_of t p b)%nat.
Proof.
  unfold events_of. rewrite filter_app, length_app. reflexivity.
Qed.

Lemma events_of_map_pair (t t' : tid) (p : event -> bool) (tr : list event) :
  events_of t p (map (pair t') tr)
  = if tid_eqb t' t then List.length (filter p tr) else 0%nat.
Proof.
  unfold events_of. induction tr as [|ev tr IH]; cbn [map filter fst snd].
  - destruct (tid_eqb t' t); reflexivity.
  - destruct (tid_eqb t' t) eqn:Ht; cbn [andb].
    + destruct (p ev); cbn [List.length]; rewrite IH; reflexivity.
    + exact IH.
Qed.

Lemma slept_ms_app (t : tid) (a b : list (tid * event)) :
  slept_ms t (a ++ b) = slept_ms t a + slept_ms t b.
Proof.
  induction a as [|[t' ev] a IH]; cbn [List.app slept_ms]; [reflexivity|].
  destruct ev; rewrite IH; try reflexivity. lia.
Qed.

Lemma sleeps_are_50_app (t : tid) (a b : list (tid * event)) :
  sleeps_are_50 t a -> sleeps_are_50 t b -> sleeps_are_50 t (a ++ b).
Proof.
  unfold sleeps_are_50. intros Ha Hb.
  rewrite slept_ms_app, events_of_app, Ha, Hb. lia.
Qed.

Lemma sleeps_are_50_map (t t' : tid) (tr : list event) :
  Forall sleep_is_50 tr -> sleeps_are_50 t (map (pair t') tr).
Proof.
  unfold sleeps_are_50, events_of.
  induction 1 as [|ev tr Hev _ IH]; [reflexivity|].
  cbn [map slept_ms filter fst snd].
  destruct ev; cbn [is_sleep] in *;
    rewrite ?andb_false_r; try exact IH.
  injection (Hev eq_refl) as ->.
  destruct (tid_eqb t' t); cbn [andb List.length]; rewrite IH; lia.
Qed.

Ltac solve_sleeps :=
  repeat match goal with
         | |- Forall _ (_ ++ _) => apply Forall_app; split
         | |- Forall _ (map EvAccess _) =>
             apply Forall_map_access; intros ? H; discriminate H
         | |- Forall _ (_ :: _) => apply Forall_cons
         | |- Forall _ [] => apply Forall_nil
         | |- sleep_is_50 _ => unfold sleep_is_50
         | |- _ = true -> _ =>
             let H := fresh in intros H; first [discriminate H | reflexivity]
         end.

(** ** The worker loops at the grain of [std::system] *)

(** The coarse steps are the fine ones, with the three steps from [FCall]
    to the store taken together. *)
Lemma network_worker_step_refined (e : Env) (rc : Z) (pc : wpc) (s : AppState) :
  match pc with
  | PBody cmd =>
      forall a b,
        (p1 <- network_worker_fine e a (FCall cmd) ;;
         p2 <- network_worker_fine e rc p1 ;;
         network_worker_fine e b p2) s
        = (let '(pc', s', tr) := network_worker_step e rc pc s in
           (fine_of pc', s', tr))
  | _ =>
      network_worker_fine e rc (fine_of pc) s
      = (let '(pc', s', tr) := network_worker_step e rc pc s in
         (fine_of pc', s', tr))
  end.
Proof.
  destruct pc as [|cmd|cmd|cmd i|cmd i|]; cbn; unfold bind, emit; cbn;
    try destruct (string_empty (resolve_path e "test_network.sh"));
    try destruct (i <? 40); try destruct (running s); cbn;
    intros; reflexivity.
Qed.

Lemma serial_worker_step_refined (e : Env) (rc : Z) (pc : wpc) (s : AppState) :
  match pc with
  | PBody cmd =>
      forall a b,
        (p1 <- serial_worker_fine e a (FCall cmd) ;;
         p2 <- serial_worker_fine e rc p1 ;;
         serial_worker_fine e b p2) s
        = (let '(pc', s', tr) := serial_worker_step e rc pc s in
           (fine_of pc', s', tr))
  | _ =>
      serial_worker_fine e rc (fine_of pc) s
      = (let '(pc', s', tr) := serial_worker_step e rc pc s in
         (fine_of pc', s', tr))
  end.
Proof.
  destruct pc as [|cmd|cmd|cmd i|cmd i|]; cbn; unfold bind, emit; cbn;
    try destruct (string_empty (resolve_path e "test_serial.sh"));
    try destruct (i <? 40); try destruct (running s); cbn;
    intros; reflexivity.
Qed.

Ltac fine_cases e script pc s :=
  let cmd := fresh "cmd" in
  let i := fresh "i" in
  let rc' := fresh "rc'" in
  destruct pc as [|cmd|cmd|cmd|cmd rc'|cmd i|cmd i|]; cbn;
  unfold bind, emit; cbn;
  try destruct (string_empty (resolve_path e script));
  try destruct (Z.ltb_spec i 40); try destruct (running s) eqn:?; cbn;
  rewrite ?filter_app, ?length_app, ?filter_map_access by reflexivity;
  cbn.

(** What one fine step of a worker does to the running flag, to its
    distance from returning once stopped, and to the calls and sleeps it is
    committed to. *)
Lemma network_worker_fine_stopped (e : Env) (rc : Z) (pc : fpc) (s : AppState) :
  running s = false ->
  let r := network_worker_fine e rc pc s in
  running (snd (fst r)) = false
  /\ (fsteps_left (fst (fst r)) <= fsteps_left pc - 1)%nat
  /\ (call_pending (fst (fst r)) + List.length (filter is_system (snd r))
      <= call_pending pc)%nat
  /\ (fsleep_pending (fst (fst r)) + List.length (filter is_sleep (snd r))
      <= fsleep_pending pc)%nat.
Proof.
  intros Hrun. fine_cases e "test_network.sh" pc s;
    try congruence; repeat split; try assumption; lia.
Qed.

Lemma serial_worker_fine_stopped (e : Env) (rc : Z) (pc : fpc) (s : AppState) :
  running s = false ->
  let r := serial_worker_fine e rc pc s in
  running (snd (fst r)) = false
  /\ (fsteps_left (fst (fst r)) <= fsteps_left pc - 1)%nat
  /\ (call_pending (fst (fst r)) + List.length (filter is_system (snd r))
      <= call_pending pc)%nat
  /\ (fsleep_pending (fst (fst r)) + List.length (filter is_sleep (snd r))
      <= fsleep_pending pc)%nat.
Proof.
  intros Hrun. fine_cases e "test_serial.sh" pc s;
    try congruence; repeat split; try assumption; lia.
Qed.

Lemma network_worker_fine_running (e : Env) (rc : Z) (pc : fpc) (s : AppState) :
  running (snd (fst (network_worker_fine e rc pc s))) = running s.
Proof. fine_cases e "test_network.sh" pc s; congruence. Qed.

Lemma serial_worker_fine_running (e : Env) (rc : Z) (pc : fpc) (s : AppState) :
  running (snd (fst (serial_worker_fine e rc pc s))) = running s.
Proof. fine_cases e "test_serial.sh" pc s; congruence. Qed.



Lemma network_worker_fine_sleeps (e : Env) (rc : Z) (pc : fpc) (s : AppState) :
  Forall sleep_is_50 (snd (network_worker_fine e rc pc s)).
Proof.
  destruct pc as [|cmd|cmd|cmd|cmd rc'|cmd i|cmd i|]; cbn;
    unfold bind, emit; cbn;
    try destruct (string_empty (resolve_path e "test_network.sh"));
    try destruct (i <? 40); cbn; solve_sleeps.
Qed.

Lemma serial_worker_fine_sleeps (e : Env) (rc : Z) (pc : fpc) (s : AppState) :
  Forall sleep_is_50 (snd (serial_worker_fine e rc pc s)).
Proof.
  destruct pc as [|cmd|cmd|cmd|cmd rc'|cmd i|cmd i|]; cbn;
    unfold bind, emit; cbn;
    try destruct (string_empty (resolve_path e "test_serial.sh"));
    try destruct (i <? 40); cbn; solve_sleeps.
Qed.

Section FineRuns.

Variable e : Env.
Variable fl_measure : string -> Z * Z.
Variable panel : Widget.

Lemma fexec_cons (sy : FSys) (c : choice) (sched : list choice) :
  fexec e fl_measure panel sy (c :: sched)
  = (fst (fexec e fl_measure panel
            (fst (fsys_step e fl_measure panel sy c)) sched),
     snd (fsys_step e fl_measure panel sy c)
     ++ snd (fexec e fl_measure panel
               (fst (fsys_step e fl_measure panel sy c)) sched))%list.
Proof.
  cbn [fexec]. destruct (fsys_step e fl_measure panel sy c) as [sy1 t1].
  cbn [fst snd].
  destruct (fexec e fl_measure panel sy1 sched) as [sy2 t2]. reflexivity.
Qed.


(** One step of the program, seen from worker [t]: its own step, or a step
    of another thread, which leaves its position alone. *)
Lemma fsys_step_own (t : tid) (sy : FSys) (c : choice) :
  t <> TUi -> tid_eqb (tid_of c) t = true ->
  exists rc,
    match t with
    | TNetwork =>
        fsys_step e fl_measure panel sy c
        = (mkFSys (snd (fst (network_worker_fine e rc (fnet sy) (fapp sy))))
                  (fst (fst (network_worker_fine e rc (fnet sy) (fapp sy))))
                  (fser sy),
           map (pair TNetwork)
               (snd (network_worker_fine e rc (fnet sy) (fapp sy))))
    | _ =>
        fsys_step e fl_measure panel sy c
        = (mkFSys (snd (fst (serial_worker_fine e rc (fser sy) (fapp sy))))
                  (fnet sy)
                  (fst (fst (serial_worker_fine e rc (fser sy) (fapp sy)))),
           map (pair TSerial)
               (snd (serial_worker_fine e rc (fser sy) (fapp sy))))
    end.
Proof.
  intros Ht Hc. destruct t; [| |congruence];
    destruct c as [rc|rc| |]; try discriminate Hc; exists rc;
    cbn [fsys_step].
  - destruct (network_worker_fine e rc (fnet sy) (fapp sy)) as [[pc s] tr].
    reflexivity.
  - destruct (serial_worker_fine e rc (fser sy) (fapp sy)) as [[pc s] tr].
    reflexivity.
Qed.

Lemma fsys_step_other (t : tid) (sy : FSys) (c : choice) :
  tid_eqb (tid_of c) t = false ->
  fpc_of t (fst (fsys_step e fl_measure panel sy c)) = fpc_of t sy
  /\ (forall p, events_of t p (snd (fsys_step e fl_measure panel sy c)) = 0%nat).
Proof.
  intros Hc. destruct c as [rc|rc| |]; cbn [fsys_step tid_of] in *.
  - destruct (network_worker_fine e rc (fnet sy) (fapp sy)) as [[pc s] tr].
    cbn [fst snd]. split.
    + destruct t; try discriminate Hc; reflexivity.
    + intros p. rewrite events_of_map_pair, Hc. reflexivity.
  - destruct (serial_worker_fine e rc (fser sy) (fapp sy)) as [[pc s] tr].
    cbn [fst snd]. split.
    + destruct t; try discriminate Hc; reflexivity.
    + intros p. rewrite events_of_map_pair, Hc. reflexivity.
  - destruct (ui_timer_cb fl_measure panel (fapp sy)) as [[u s] tr].
    cbn [fst snd]. split.
    + destruct t; reflexivity.
    + intros p. rewrite events_of_map_pair, Hc. reflexivity.
  - cbn [stop_cb running_store fst snd]. split.
    + destruct t; reflexivity.
    + intros p. rewrite events_of_map_pair, Hc. reflexivity.
Qed.

Lemma fsys_step_running (sy : FSys) (c : choice) :
  running (fapp (fst (fsys_step e fl_measure panel sy c)))
  = running (fapp sy) && negb (is_stop c).
Proof.
  destruct c as [rc|rc| |]; cbn [fsys_step is_stop negb].
  - pose proof (network_worker_fine_running e rc (fnet sy) (fapp sy)) as H.
    destruct (network_worker_fine e rc (fnet sy) (fapp sy)) as [[pc s] tr].
    cbn [fst snd fapp] in *. rewrite H, andb_true_r. reflexivity.
  - pose proof (serial_worker_fine_running e rc (fser sy) (fapp sy)) as H.
    destruct (serial_worker_fine e rc (fser sy) (fapp sy)) as [[pc s] tr].
    cbn [fst snd fapp] in *. rewrite H, andb_true_r. reflexivity.
  - rewrite ui_timer_cb_run. cbn [fst snd fapp]. rewrite andb_true_r.
    reflexivity.
  - cbn. rewrite andb_false_r. reflexivity.
Qed.


Lemma fsys_step_stopped (t : tid) (sy : FSys) (c : choice) :
  t <> TUi ->
  running (fapp sy) = false ->
  fwinding_down t sy (fst (fsys_step e fl_measure panel sy c))
    (if tid_eqb (tid_of c) t then 1%nat else 0%nat)
    (snd (fsys_step e fl_measure panel sy c)).
Proof.
  intros Ht Hrun. unfold fwinding_down.
  rewrite fsys_step_running, Hrun. cbn [andb].
  destruct (tid_eqb (tid_of c) t) eqn:Hc.
  - destruct (fsys_step_own t sy c Ht Hc) as [rc Hstep].
    destruct t; [| |congruence]; rewrite Hstep; cbn [fst snd fpc_of fnet fser];
      rewrite !events_of_map_pair; cbn [tid_eqb].
    + pose proof (network_worker_fine_stopped e rc (fnet sy) (fapp sy) Hrun)
        as (_ & H2 & H3 & H4).
      repeat split; assumption.
    + pose proof (serial_worker_fine_stopped e rc (fser sy) (fapp sy) Hrun)
        as (_ & H2 & H3 & H4).
      repeat split; assumption.
  - destruct (fsys_step_other t sy c Hc) as [Hpc Hev].
    rewrite Hpc, !Hev. repeat split; lia.
Qed.

Lemma fexec_stopped (t : tid) (sched : list choice) (sy : FSys) :
  t <> TUi ->
  running (fapp sy) = false ->
  fwinding_down t sy (fst (fexec e fl_measure panel sy sched))
    (runs_of t sched) (snd (fexec e fl_measure panel sy sched)).
Proof.
  intros Ht. revert sy. induction sched as [|c sched IH]; intros sy Hrun.
  - unfold fwinding_down. cbn. repeat split; try assumption; lia.
  - rewrite fexec_cons. cbn [fst snd].
    pose proof (fsys_step_stopped t sy c Ht Hrun) as (H1 & H2 & H3 & H4).
    pose proof (IH _ H1) as (K1 & K2 & K3 & K4).
    unfold fwinding_down. rewrite !events_of_app.
    unfold runs_of in *. cbn [filter].
    destruct (tid_eqb (tid_of c) t); cbn [List.length];
      repeat split; try assumption; lia.
Qed.

Lemma fexec_sleeps (t : tid) (sched : list choice) (sy : FSys) :
  sleeps_are_50 t (snd (fexec e fl_measure panel sy sched)).
Proof.
  revert sy. induction sched as [|c sched IH]; intros sy; [reflexivity|].
  rewrite fexec_cons. cbn [snd].
  apply sleeps_are_50_app; [|apply IH].
  destruct c as [rc|rc| |]; cbn [fsys_step].
  - pose proof (network_worker_fine_sleeps e rc (fnet sy) (fapp sy)) as H.
    destruct (network_worker_fine e rc (fnet sy) (fapp sy)) as [[pc s] tr].
    apply sleeps_are_50_map, H.
  - pose proof (serial_worker_fine_sleeps e rc (fser sy) (fapp sy)) as H.
    destruct (serial_worker_fine e rc (fser sy) (fapp sy)) as [[pc s] tr].
    apply sleeps_are_50_map, H.
  - pose proof (ui_timer_cb_read_only fl_measure panel (fapp sy)) as Hro.
    destruct (ui_timer_cb fl_measure panel (fapp sy)) as [[u s] tr].
    cbn [snd] in *. apply sleeps_are_50_map.
    eapply Forall_impl; [|exact Hro].
    intros [[]| | | | | | | |]; cbn; intros; try discriminate; contradiction.
  - apply (sleeps_are_50_map t TUi [EvStoreRunning false]).
    repeat constructor. discriminate.
Qed.




End FineRuns.

Lemma fsteps_left_zero (pc : fpc) : fsteps_left pc = 0%nat -> pc = FReturn.
Proof. destruct pc; cbn; intros H; try discriminate; reflexivity. Qed.

Lemma fsteps_left_bound (pc : fpc) : (fsteps_left pc <= 5)%nat.
Proof. destruct pc; cbn; lia. Qed.

Lemma full_sleep_network_fine (e : Env) (fl_measure : string -> Z * Z)
    (panel : Widget) (cmd : string) (opc : fpc) (w x : ProbeState) (rc : Z) :
  fexec e fl_measure panel
        (mkFSys (mkAppState w x true) (FFor cmd 0) opc)
        (repeat (RunNetwork rc) 81)
  = (mkFSys (mkAppState w x true) (FWhile cmd) opc, full_sleep TNetwork).
Proof. vm_compute. reflexivity. Qed.

Lemma full_sleep_serial_fine (e : Env) (fl_measure : string -> Z * Z)
    (panel : Widget) (cmd : string) (opc : fpc) (w x : ProbeState) (rc : Z) :
  fexec e fl_measure panel
        (mkFSys (mkAppState w x true) opc (FFor cmd 0))
        (repeat (RunSerial rc) 81)
  = (mkFSys (mkAppState w x true) opc (FWhile cmd), full_sleep TSerial).
Proof. vm_compute. reflexivity. Qed.

(** C7 as stated fails when the stop falls between a worker's loop check
    and its call of [std::system]: with both scripts installed, the network
    worker resolves its script and passes the loop check, then the stop is
    requested; [running] is false and no command has been started, yet the
    worker's next step starts one. *)
Lemma stop_after_loop_check_starts_probe :
  let before := fexec env_both measure_fixed panel_main FSys_init
                  [RunNetwork 0; RunNetwork 0; UiStop] in
  let after := fexec env_both measure_fixed panel_main (fst before)
                 [RunNetwork 0] in
  running (fapp (fst before)) = false
  /\ events_of TNetwork is_system (snd before) = 0%nat
  /\ fnet (fst before) = FCall "'/usr/bin/test_network.sh' >/dev/null 2>&1"
  /\ running (fapp (fst after)) = false
  /\ snd after
     = [(TNetwork, EvSystem "'/usr/bin/test_network.sh' >/dev/null 2>&1")].
Proof. vm_compute. repeat split. Qed.

(** C7 (amended).  The sleep between probe runs is 40 increments of 50 ms
    (2 s in all), each preceded by a load of [running].  Once [running] is
    false it stays false, and from then on each worker returns after at
    most five more of its own steps (one from the loop check, two from a
    sleep check, three from a sleep increment or a pending store, four from
    a call in progress, five from a passed loop check); on the way it
    starts no probe command, except that a worker which had passed its loop
    check and not yet begun the call starts that one call; and it sleeps at
    most one more 50 ms increment (the one it was already standing at). *)
Theorem stop_ends_worker_loops (e : Env) (fl_measure : string -> Z * Z) (panel : Widget) :
  (forall cmd opc w x rc,
      let r := fexec e fl_measure panel
                 (mkFSys (mkAppState w x true) (FFor cmd 0) opc)
                 (repeat (RunNetwork rc) 81) in
      fnet (fst r) = FWhile cmd
      /\ snd r = full_sleep TNetwork
      /\ events_of TNetwork is_sleep (snd r) = 40%nat
      /\ slept_ms TNetwork (snd r) = 2000)
  /\ (forall cmd opc w x rc,
        let r := fexec e fl_measure panel
                   (mkFSys (mkAppState w x true) opc (FFor cmd 0))
                   (repeat (RunSerial rc) 81) in
        fser (fst r) = FWhile cmd
        /\ snd r = full_sleep TSerial
        /\ events_of TSerial is_sleep (snd r) = 40%nat
        /\ slept_ms TSerial (snd r) = 2000)
  /\ (forall sy sched t,
        t <> TUi ->
        running (fapp sy) = false ->
        let r := fexec e fl_measure panel sy sched in
        running (fapp (fst r)) = false
        /\ (fsteps_left (fpc_of t sy) <= 5)%nat
        /\ ((fsteps_left (fpc_of t sy) <= runs_of t sched)%nat ->
            fpc_of t (fst r) = FReturn)
        /\ (events_of t is_system (snd r) <= call_pending (fpc_of t sy))%nat
        /\ (events_of t is_sleep (snd r) <= fsleep_pending (fpc_of t sy))%nat
        /\ slept_ms t (snd r) <= 50).
Proof.
  split; [|split].
  - intros cmd opc w x rc r. subst r. rewrite full_sleep_network_fine.
    cbn [fst snd fnet]. repeat split; vm_compute; reflexivity.
  - intros cmd opc w x rc r. subst r. rewrite full_sleep_serial_fine.
    cbn [fst snd fser]. repeat split; vm_compute; reflexivity.
  - intros sy sched t Ht Hrun r. subst r.
    pose proof (fexec_stopped e fl_measure panel t sched sy Ht Hrun)
      as (H1 & H2 & H3 & H4).
    pose proof (fexec_sleeps e fl_measure panel t sched sy) as H5.
    unfold sleeps_are_50 in H5.
    assert (Hp : (fsleep_pending (fpc_of t sy) <= 1)%nat)
      by (destruct (fpc_of t sy); cbn; lia).
    split; [exact H1|]. split; [apply fsteps_left_bound|].
    split; [intros Hn; apply fsteps_left_zero; lia|].
    split; [lia|]. split; lia.
Qed.

Lemma stop_ends_worker_loops_witness :
  let r := fexec env_serial_only measure_fixed panel_main fsys_stopped_midway
             [RunNetwork 0; RunSerial 7; UiTimer; RunNetwork 0; RunSerial 0;
              RunNetwork 0; RunSerial 0; RunSerial 0] in
  fnet (fst r) = FReturn /\ fser (fst r) = FReturn.
Proof.
  pose proof (proj2 (proj2
                (stop_ends_worker_loops env_serial_only measure_fixed panel_main))
              fsys_stopped_midway
              [RunNetwork 0; RunSerial 7; UiTimer; RunNetwork 0; RunSerial 0;
               RunNetwork 0; RunSerial 0; RunSerial 0]) as H.
  split.
  - refine (proj1 (proj2 (proj2 (H TNetwork _ eq_refl))) _).
    + discriminate.
    + vm_compute. lia.
  - refine (proj1 (proj2 (proj2 (H TSerial _ eq_refl))) _).
    + discriminate.
    + vm_compute. lia.
Defined.



(** * Further properties of the code *)

(** ** Path resolution *)

Lemma first_hit_sound (hit : string -> bool) (cands : list string) :
  first_hit hit cands <> EmptyString ->
  hit (first_hit hit cands) = true
  /\ In (first_hit hit cands) cands
  /\ In (first_hit hit cands) (probed_until hit cands).
Proof.
  unfold first_hit. induction cands as [|c cands IH]; cbn [find probed_until].
  - intros H. congruence.
  - destruct (hit c) eqn:Hc.
    + intros _. repeat split; [exact Hc | left; reflexivity | left; reflexivity].
    + intros H. destruct (IH H) as (H1 & H2 & H3).
      repeat split; [exact H1 | right; exact H2 | right; exact H3].
Qed.

(** X1.  A non-empty result of [resolve_path] is one of the paths it
    handed to [access], passed that test, and is [dir/script] for one of
    the searched directories. *)
Theorem resolve_path_sound (e : Env) (script : string) :
  resolve_path e script <> EmptyString ->
  access_X_OK e (resolve_path e script) = true
  /\ In (resolve_path e script) (resolve_path_probes e script)
  /\ exists dir, In dir (search_dirs e)
                 /\ resolve_path e script = candidate_of script dir.
Proof.
  unfold resolve_path, resolve_path_probes.
  rewrite resolve_path_trace_spec. cbn [fst snd]. intros Hne.
  destruct (first_hit_sound _ _ Hne) as (H1 & H2 & H3).
  split; [exact H1|]. split; [exact H3|].
  apply in_map_iff in H2. destruct H2 as (dir & Hd & Hin).
  exists dir. split; [exact Hin | symmetry; exact Hd].
Qed.

Lemma resolve_path_sound_witness :
  access_X_OK env_colons (resolve_path env_colons "test_serial.sh") = true.
Proof.
  refine (proj1 (resolve_path_sound env_colons "test_serial.sh" _)).
  vm_compute. discriminate.
Defined.

Lemma find_all_miss (hit : string -> bool) (l : list string) :
  (forall c, In c l -> hit c = false) -> find hit l = None.
Proof.
  intros H. induction l as [|a l IH]; cbn [find]; [reflexivity|].
  rewrite (H a (or_introl eq_refl)). apply IH.
  intros c Hc. apply H. right. exact Hc.
Qed.

(** X2.  When no directory of the search path has the script (in
    particular when [PATH] is unset or empty), the result is decided by the
    fallback list in its order: [/usr/local/bin] is preferred to
    [/usr/bin], and the result is empty only if both miss. *)
Theorem resolve_path_fallback_order (e : Env) (script : string) :
  (forall dir, In dir (filter nonempty (path_entries e)) ->
               access_X_OK e (candidate_of script dir) = false) ->
  resolve_path e script
  = if access_X_OK e (candidate_of script "/usr/local/bin")
    then candidate_of script "/usr/local/bin"
    else if access_X_OK e (candidate_of script "/usr/bin")
         then candidate_of script "/usr/bin"
         else EmptyString.
Proof.
  intros Hmiss. unfold resolve_path.
  rewrite resolve_path_trace_spec. cbn [fst].
  rewrite search_dirs_entries, map_app. unfold first_hit.
  rewrite find_app_hit, find_all_miss.
  - cbn [fallbacks map find].
    destruct (access_X_OK e (candidate_of script "/usr/local/bin"));
      [reflexivity|].
    destruct (access_X_OK e (candidate_of script "/usr/bin")); reflexivity.
  - intros c Hc. apply in_map_iff in Hc. destruct Hc as (dir & <- & Hin).
    apply Hmiss, Hin.
Qed.

Lemma resolve_path_fallback_order_witness :
  resolve_path env_both "test_network.sh" = "/usr/bin/test_network.sh".
Proof.
  rewrite (resolve_path_fallback_order env_both "test_network.sh").
  - reflexivity.
  - intros dir [<-|[]]. reflexivity.
Defined.

Lemma probed_until_length (hit : string -> bool) (l : list string) :
  (List.length (probed_until hit l) <= List.length l)%nat.
Proof.
  induction l as [|a l IH]; cbn [probed_until List.length]; [lia|].
  destruct (hit a); cbn [List.length]; lia.
Qed.

(** X3.  A hit in a directory of the search path shadows the fallback
    list: the result then comes from a search-path directory, and no more
    paths are probed than the search path has non-empty entries, so the
    fallback loop is never entered. *)
Theorem resolve_path_PATH_shadows_fallbacks (e : Env) (script dir : string) :
  In dir (filter nonempty (path_entries e)) ->
  access_X_OK e (candidate_of script dir) = true ->
  (exists dir', In dir' (filter nonempty (path_entries e))
                /\ resolve_path e script = candidate_of script dir')
  /\ (List.length (resolve_path_probes e script)
      <= List.length (filter nonempty (path_entries e)))%nat.
Proof.
  intros Hin Hhit. unfold resolve_path, resolve_path_probes.
  rewrite resolve_path_trace_spec. cbn [fst snd].
  rewrite search_dirs_entries, map_app. unfold first_hit.
  rewrite find_app_hit, probed_until_app.
  destruct (find (access_X_OK e)
              (map (candidate_of script) (filter nonempty (path_entries e))))
    as [c|] eqn:Hf.
  - apply find_some in Hf. destruct Hf as [Hc _].
    apply in_map_iff in Hc. destruct Hc as (dir' & <- & Hin').
    split; [exists dir'; split; [exact Hin' | reflexivity]|].
    etransitivity; [apply probed_until_length|].
    rewrite length_map. lia.
  - exfalso.
    pose proof (find_none _ _ Hf (candidate_of script dir)) as Hn.
    rewrite Hn in Hhit; [discriminate|].
    apply in_map. exact Hin.
Qed.

Lemma resolve_path_PATH_shadows_fallbacks_witness :
  (List.length (resolve_path_probes env_both "test_serial.sh") <= 1)%nat.
Proof.
  refine (proj2 (resolve_path_PATH_shadows_fallbacks
                   env_both "test_serial.sh" "/opt/bin" _ _)).
  - left. reflexivity.
  - reflexivity.
Defined.

(** ** Rendering *)

(** X4.  The status line tells the two probe states apart: snapshots with
    the same line hold the same network and serial states (the running flag
    does not show in it). *)
Theorem status_line_injective (s s' : AppState) :
  status_line s = status_line s' ->
  network s = network s' /\ serial s = serial s'.
Proof.
  unfold status_line. rewrite !make_status_line_run. cbn [fst].
  destruct s as [w x r], s' as [w' x' r']. cbn [network serial].
  destruct w, x, w', x'; cbn; intros H;
    first [split; reflexivity | discriminate H].
Qed.

Lemma status_line_injective_witness :
  network (mkAppState Ok Fail true) = network (mkAppState Ok Fail false)
  /\ serial (mkAppState Ok Fail true) = serial (mkAppState Ok Fail false).
Proof.
  apply (status_line_injective (mkAppState Ok Fail true)
                               (mkAppState Ok Fail false)).
  reflexivity.
Defined.

Lemma outlined_circles_captions (cur : Fl_Color) (captions : list event) :
  Forall (fun ev => match ev with
                    | EvFl (fl_font _ _) | EvFl (fl_draw _ _ _)
                    | EvFl (fl_color _) => True
                    | _ => False
                    end) captions ->
  outlined_circles cur captions = [].
Proof.
  intros H. revert cur.
  induction H as [|ev captions Hev _ IH]; intros cur; [reflexivity|].
  destruct ev as [| | | | | | |[]|]; try contradiction;
    cbn [outlined_circles]; apply IH.
Qed.

(** X5.  Every circle [draw] fills is then outlined: the outlines are three
    arcs with the positions and diameters of the three filled circles, in
    the same order, and each is stroked in [FL_DARK3] whatever the probe
    states are. *)
Theorem draw_outlines_match_fills (fl_measure : string -> Z * Z) (wg : Widget)
    (s : AppState) (c : Fl_Color) :
  map fst (outlined_circles c (snd (draw fl_measure wg s)))
  = map fst (filled_circles c (snd (draw fl_measure wg s)))
  /\ map snd (outlined_circles c (snd (draw fl_measure wg s)))
     = [FL_DARK3; FL_DARK3; FL_DARK3].
Proof.
  destruct (draw_run fl_measure wg s) as (captions & -> & Hcap).
  cbn [snd List.app filled_circles outlined_circles map fst].
  rewrite (outlined_circles_captions _ _ Hcap).
  assert (Hf : forall cur, filled_circles cur captions = []).
  { clear -Hcap. induction Hcap as [|ev captions Hev _ IH]; intros cur;
      [reflexivity|].
    destruct ev as [| | | | | | |[]|]; try contradiction;
      cbn [filled_circles]; apply IH. }
  rewrite Hf. split; reflexivity.
Qed.

(** ** Layout *)

Lemma layout_in_range_panel_main : layout_in_range panel_main.
Proof. unfold layout_in_range. cbn. lia. Qed.

(** X6.  For widget geometry in the range where the layout arithmetic
    does not wrap, the three circles lie inside the panel width exactly
    when the panel is at least 70 pixels wide. *)
Theorem circles_inside_iff (wg : Widget) :
  layout_in_range wg ->
  (circles_inside wg <-> 70 <= ww wg).
Proof.
  intros H. split; [|apply (circles_inside_wide wg H)].
  unfold circles_inside.
  rewrite (circle_xs_exact wg H),
    (diameter_exact wg (layout_in_range_width wg H)).
  unfold circle_inside.
  pose proof (diameter_Z_clamped (ww wg)) as Hd. lia.
Qed.

Lemma circles_inside_iff_witness : circles_inside panel_main.
Proof.
  apply (proj2 (circles_inside_iff panel_main layout_in_range_panel_main)).
  vm_compute. discriminate.
Defined.

(** X7.  For every [int] width from [INT_MIN + 20] up (so that [w() - 20]
    does not wrap) the diameter is 60 up to a width of 232,
    [(w - 20) / 3 - 10] from 233 to 349, and 100 from 350; over that range
    it never shrinks when the panel grows. *)
Theorem diameter_monotone (wg wg' : Widget) :
  width_in_range wg -> width_in_range wg' ->
  ((ww wg <= 232 /\ diameter wg = 60)
   \/ (233 <= ww wg <= 349 /\ diameter wg = Z.quot (ww wg - 20) 3 - 10)
   \/ (350 <= ww wg /\ diameter wg = 100))
  /\ (ww wg <= ww wg' -> diameter wg <= diameter wg').
Proof.
  intros H H'. rewrite (diameter_exact wg H), (diameter_exact wg' H').
  split; [apply diameter_Z_cases|].
  intros Hle.
  pose proof (diameter_Z_clamped (ww wg)) as Hd.
  pose proof (diameter_Z_clamped (ww wg')) as Hd'.
  destruct (diameter_Z_cases (ww wg)) as [[H1 H2]|[[H1 H2]|[H1 H2]]];
    destruct (diameter_Z_cases (ww wg')) as [[K1 K2]|[[K1 K2]|[K1 K2]]];
    try lia.
  rewrite H2, K2. Z.to_euclidean_division_equations. lia.
Qed.

Lemma diameter_monotone_witness :
  diameter (mkWidget 0 0 240 0) <= diameter panel_main.
Proof.
  refine (proj2 (diameter_monotone (mkWidget 0 0 240 0) panel_main _ _) _).
  - unfold width_in_range. cbn. lia.
  - unfold width_in_range. cbn. lia.
  - vm_compute. discriminate.
Defined.

(** X8.  For widget geometry in the range where the layout arithmetic
    does not wrap: the circles overlap (the gap between neighbours is
    negative) exactly on panels narrower than 199 pixels; from 199 pixels
    they stand left to right without overlapping, the first 10 pixels from
    the panel's left edge, and from 200 pixels the third ends 10 or 11
    pixels from the panel's right edge. *)
Theorem circles_disjoint_iff (wg : Widget) :
  layout_in_range wg ->
  let d := diameter wg in
  let x0 := fst (fst (circle_xs wg)) in
  let x1 := snd (fst (circle_xs wg)) in
  let x2 := snd (circle_xs wg) in
  (gap wg < 0 <-> ww wg < 199)
  /\ (199 <= ww wg ->
      x0 = wx wg + 10 /\ x0 + d <= x1 /\ x1 + d <= x2)
  /\ (200 <= ww wg ->
      wx wg + ww wg - 11 <= x2 + d <= wx wg + ww wg - 10).
Proof.
  intros H d x0 x1 x2. subst d x0 x1 x2.
  pose proof (gap_nonneg_wide wg H) as Hwide.
  rewrite (circle_xs_exact wg H), (gap_exact wg H),
    (diameter_exact wg (layout_in_range_width wg H)) in *.
  cbn [fst snd].
  pose proof (diameter_Z_clamped (ww wg)) as Hd.
  assert (Hnarrow : ww wg < 199 -> gap_Z (ww wg) < 0).
  { intros Hw. unfold gap_Z. Z.to_euclidean_division_equations. lia. }
  split; [|split].
  - split; [|exact Hnarrow].
    intros Hg. destruct (Z_lt_le_dec (ww wg) 199) as [Hlt|Hge]; [exact Hlt|].
    specialize (Hwide Hge). lia.
  - intros Hw. specialize (Hwide Hw). lia.
  - intros Hw.
    pose proof (proj2 (diameter_Z_fits (ww wg)) Hw) as Hf.
    unfold gap_Z. Z.to_euclidean_division_equations. lia.
Qed.

Lemma circles_disjoint_iff_witness :
  fst (fst (circle_xs panel_main)) + diameter panel_main
  <= snd (fst (circle_xs panel_main)).
Proof.
  refine (proj1 (proj2 (proj1 (proj2
            (circles_disjoint_iff panel_main layout_in_range_panel_main)) _))).
  vm_compute. discriminate.
Defined.

Lemma rows_exact (wg : Widget) :
  panel_in_range wg ->
  int_add (wy wg) 10 = wy wg + 10
  /\ int_add (int_add (int_add (wy wg) 10) (diameter wg)) 8
     = wy wg + 10 + diameter wg + 8.
Proof.
  intros [_ Hy]. pose proof (diameter_clamped wg) as Hd. unfold int_add.
  rewrite (wrap_int_small (wy wg + 10)) by lia.
  rewrite (wrap_int_small (wy wg + 10 + diameter wg)) by lia.
  rewrite (wrap_int_small (wy wg + 10 + diameter wg + 8)) by lia.
  split; reflexivity.
Qed.

Lemma caption_exact (x y w tw th : Z) :
  - 1073742000 <= x <= 1073742000 ->
  - 1073742000 <= y <= 1073742000 ->
  60 <= w <= 100 ->
  - 1073741824 <= tw <= 1073741824 ->
  - 536870912 <= th <= 536870912 ->
  int_add x (Z.quot (int_sub w tw) 2) = x + Z.quot (w - tw) 2
  /\ int_add y th = y + th.
Proof.
  intros Hx Hy Hw Htw Hth. unfold int_add, int_sub.
  rewrite (wrap_int_small (w - tw)) by lia.
  rewrite (wrap_int_small (x + Z.quot (w - tw) 2))
    by (Z.to_euclidean_division_equations; lia).
  rewrite (wrap_int_small (y + th)) by lia.
  split; reflexivity.
Qed.

Lemma circle_xs_bounds (wg : Widget) :
  layout_in_range wg ->
  - 1073742000 <= fst (fst (circle_xs wg)) <= 1073742000
  /\ - 1073742000 <= snd (fst (circle_xs wg)) <= 1073742000.
Proof.
  intros H. rewrite (circle_xs_exact wg H). cbn [fst snd].
  pose proof (diameter_Z_clamped (ww wg)) as Hd.
  destruct H as [Hww Hwx].
  pose proof (gap_Z_bounds (ww wg) Hww) as Hg. lia.
Qed.

(** X9.  For panel geometry and measured text sizes in the range where
    the arithmetic does not wrap, [draw] writes exactly two captions,
    [network] under the first circle and [serial] under the second, and
    none under the third.  Each is centred on its circle to within one
    pixel (the space left of the text and the space right of it differ by
    at most 1), and its baseline is the measured text height below the line
    8 pixels under the circles. *)
Theorem draw_captions (fl_measure : string -> Z * Z) (wg : Widget) (s : AppState) :
  panel_in_range wg ->
  measure_in_range fl_measure "network" ->
  measure_in_range fl_measure "serial" ->
  let d := diameter wg in
  let captionY := wy wg + 10 + d + 8 in
  let x0 := fst (fst (circle_xs wg)) in
  let x1 := snd (fst (circle_xs wg)) in
  let tw0 := fst (fl_measure "network") in
  let th0 := snd (fl_measure "network") in
  let tw1 := fst (fl_measure "serial") in
  let th1 := snd (fl_measure "serial") in
  exists tx0 tx1,
    drawn_texts (snd (draw fl_measure wg s))
    = [("network", tx0, captionY + th0); ("serial", tx1, captionY + th1)]
    /\ -1 <= (tx0 - x0) - ((x0 + d) - (tx0 + tw0)) <= 1
    /\ -1 <= (tx1 - x1) - ((x1 + d) - (tx1 + tw1)) <= 1.
Proof.
  intros Hp Hm0 Hm1 d captionY x0 x1 tw0 th0 tw1 th1.
  pose proof (diameter_clamped wg) as Hd. fold d in Hd.
  destruct (rows_exact wg Hp) as [_ Hcap]. fold d in Hcap.
  destruct (circle_xs_bounds wg (proj1 Hp)) as [Hx0 Hx1].
  fold x0 in Hx0. fold x1 in Hx1.
  assert (Hy : - 1073742000 <= captionY <= 1073742000)
    by (destruct Hp as [_ Hy]; subst captionY; lia).
  destruct Hm0 as [Htw0 Hth0]. destruct Hm1 as [Htw1 Hth1].
  fold tw0 in Htw0. fold th0 in Hth0. fold tw1 in Htw1. fold th1 in Hth1.
  destruct (caption_exact x0 captionY d tw0 th0 Hx0 Hy Hd Htw0 Hth0)
    as [Ex0 Ey0].
  destruct (caption_exact x1 captionY d tw1 th1 Hx1 Hy Hd Htw1 Hth1)
    as [Ex1 Ey1].
  exists (x0 + Z.quot (d - tw0) 2), (x1 + Z.quot (d - tw1) 2).
  split.
  - unfold draw, bind, draw_caption_centered, draw_circle, emit,
      network_load, serial_load.
    fold d. rewrite Hcap. fold captionY.
    subst x0 x1 tw0 th0 tw1 th1.
    destruct (circle_xs wg) as [[a0 a1] a2]. cbn [fst snd] in *.
    destruct (fl_measure "network") as [u0 v0].
    destruct (fl_measure "serial") as [u1 v1].
    cbn [fst snd List.app drawn_texts] in *.
    rewrite Ex0, Ey0, Ex1, Ey1. reflexivity.
  - split; Z.to_euclidean_division_equations; lia.
Qed.

Lemma measure_fixed_in_range (s : string) :
  (String.length s <= 1000)%nat -> measure_in_range measure_fixed s.
Proof.
  intros H. unfold measure_in_range, measure_fixed. cbn [fst snd]. lia.
Qed.

Lemma draw_captions_witness :
  exists tx0 tx1,
    drawn_texts (snd (draw measure_fixed panel_main AppState_init))
    = [("network", tx0, 125); ("serial", tx1, 125)].
Proof.
  destruct (draw_captions measure_fixed panel_main AppState_init
              panel_main_in_range
              (measure_fixed_in_range "network" ltac:(cbn; lia))
              (measure_fixed_in_range "serial" ltac:(cbn; lia)))
    as (tx0 & tx1 & H & _).
  exists tx0, tx1. rewrite H. vm_compute. reflexivity.
Defined.

(** X17.  For panel geometry and measured text sizes in range (width and
    y at most 2^30 in magnitude, x at most 2^29, text width at most 2^30,
    text height at most 2^29), every [int] operation of [draw] and of the
    two [draw_caption_centered] calls has an exact result that fits an
    [int], so nothing wraps: the values the program computes for the
    available width, the gap, the left edges and the circle row are the
    exact integer ones. *)
Theorem layout_fits_int (fl_measure : string -> Z * Z) (wg : Widget) :
  panel_in_range wg ->
  measure_in_range fl_measure "network" ->
  measure_in_range fl_measure "serial" ->
  let a := ww wg - 20 in
  let d := diameter wg in
  let g := gap wg in
  let left := wx wg + 10 in
  let top := wy wg + 10 in
  let tw0 := fst (fl_measure "network") in
  let th0 := snd (fl_measure "network") in
  let tw1 := fst (fl_measure "serial") in
  let th1 := snd (fl_measure "serial") in
  Forall in_int
    [a; Z.quot a 3; Z.quot a 3 - 10; 3 * d; a - 3 * d; Z.quot (a - 3 * d) 2;
     top; top + d; top + d + 8;
     left; left + d; left + d + g; d + g; 2 * (d + g); left + 2 * (d + g);
     d - tw0; Z.quot (d - tw0) 2; left + Z.quot (d - tw0) 2; top + d + 8 + th0;
     d - tw1; Z.quot (d - tw1) 2; left + d + g + Z.quot (d - tw1) 2;
     top + d + 8 + th1]
  /\ available wg = a
  /\ g = Z.quot (a - 3 * d) 2
  /\ circle_xs wg = (left, left + d + g, left + 2 * (d + g))
  /\ (forall s c,
        map fst (filled_circles c (snd (draw fl_measure wg s)))
        = [(left, top, d); (left + d + g, top, d);
           (left + 2 * (d + g), top, d)]).
Proof.
  intros Hp Hm0 Hm1 a d g left top tw0 th0 tw1 th1.
  pose proof (proj1 Hp) as Hl.
  pose proof (layout_in_range_width wg Hl) as Hw.
  pose proof (diameter_clamped wg) as Hd. fold d in Hd.
  assert (Ea : available wg = a) by (apply available_exact, Hw).
  assert (Eg : g = Z.quot (a - 3 * d) 2).
  { subst g d a. rewrite (gap_exact wg Hl), (diameter_exact wg Hw).
    reflexivity. }
  assert (Ex : circle_xs wg = (left, left + d + g, left + 2 * (d + g))).
  { subst left d g. rewrite (circle_xs_exact wg Hl), (gap_exact wg Hl),
      (diameter_exact wg Hw). reflexivity. }
  assert (Hg : - 536871072 <= g <= 536870912).
  { subst g. rewrite (gap_exact wg Hl). apply gap_Z_bounds, Hl. }
  destruct Hp as [[Hww Hwx] Hwy].
  destruct Hm0 as [Htw0 Hth0]. destruct Hm1 as [Htw1 Hth1].
  fold tw0 in Htw0. fold th0 in Hth0. fold tw1 in Htw1. fold th1 in Hth1.
  split; [|split; [exact Ea|split; [exact Eg|split; [exact Ex|]]]].
  - unfold in_int. change (2 ^ 31) with 2147483648.
    subst a left top.
    repeat (apply Forall_cons;
            [try lia; Z.to_euclidean_division_equations; lia|]).
    apply Forall_nil.
  - intros s c.
    destruct (draw_run fl_measure wg s) as (captions & -> & Hcap).
    cbn [snd List.app filled_circles map fst].
    rewrite Ex. cbn [fst snd].
    destruct (rows_exact wg (conj (conj Hww Hwx) Hwy)) as [-> _].
    fold d top.
    f_equal. f_equal. f_equal.
    generalize FL_DARK3.
    induction Hcap as [|ev captions Hev _ IH]; intros cur; [reflexivity|].
    destruct ev as [| | | | | | |[]|]; try contradiction; cbn [filled_circles];
      apply IH.
Qed.

Lemma layout_fits_int_witness :
  in_int (gap panel_main)
  /\ circle_xs panel_main = (20, 118, 216).
Proof.
  pose proof (layout_fits_int measure_fixed panel_main
                panel_main_in_range
                (measure_fixed_in_range "network" ltac:(cbn; lia))
                (measure_fixed_in_range "serial" ltac:(cbn; lia)))
    as (Hall & _ & Eg & Ex & _).
  split.
  - rewrite Eg. apply (proj1 (Forall_forall _ _) Hall). cbn. tauto.
  - rewrite Ex. vm_compute. reflexivity.
Defined.

(** ** The running flag *)

Lemma exec_app (e : Env) (fl_measure : string -> Z * Z) (panel : Widget)
    (s1 s2 : list choice) (sy : Sys) :
  exec e fl_measure panel sy (s1 ++ s2)
  = (fst (exec e fl_measure panel (fst (exec e fl_measure panel sy s1)) s2),
     snd (exec e fl_measure panel sy s1)
     ++ snd (exec e fl_measure panel (fst (exec e fl_measure panel sy s1)) s2))%list.
Proof.
  revert sy. induction s1 as [|c s1 IH]; intros sy.
  - cbn [List.app exec fst snd].
    destruct (exec e fl_measure panel sy s2); reflexivity.
  - cbn [List.app exec].
    destruct (sys_step e fl_measure panel sy c) as [sy1 t1].
    rewrite IH.
    destruct (exec e fl_measure panel sy1 s1) as [sy2 t2]. cbn [fst snd].
    destruct (exec e fl_measure panel sy2 s2) as [sy3 t3]. cbn [fst snd].
    rewrite app_assoc. reflexivity.
Qed.

Lemma running_stores_app (a b : list (tid * event)) :
  running_stores (a ++ b) = (running_stores a ++ running_stores b)%list.
Proof.
  induction a as [|[t ev] a IH]; cbn [List.app running_stores]; [reflexivity|].
  destruct ev; rewrite IH; reflexivity.
Qed.

Lemma running_stores_none (t : tid) (tr : list event) :
  Forall (fun ev => written_cell ev <> Some CRunning) tr ->
  running_stores (map (pair t) tr) = [].
Proof.
  induction 1 as [|ev tr Hev _ IH]; [reflexivity|].
  cbn [map running_stores].
  destruct ev; try exact IH. exfalso. apply Hev. reflexivity.
Qed.

Lemma network_worker_step_running (e : Env) (rc : Z) (pc : wpc) (s : AppState) :
  running (snd (fst (network_worker_step e rc pc s))) = running s
  /\ Forall (fun ev => written_cell ev <> Some CRunning)
            (snd (network_worker_step e rc pc s)).
Proof.
  destruct pc as [|cmd|cmd|cmd i|cmd i|]; cbn;
    unfold bind, emit; cbn;
    try destruct (string_empty (resolve_path e "test_network.sh"));
    try destruct (i <? 40); cbn;
    (split; [reflexivity|]);
    repeat match goal with
           | |- Forall _ (_ ++ _) => apply Forall_app; split
           | |- Forall _ (map EvAccess _) =>
               apply Forall_map_access; intros; discriminate
           | |- Forall _ (_ :: _) => apply Forall_cons; [discriminate|]
           | |- Forall _ [] => apply Forall_nil
           end.
Qed.

Lemma serial_worker_step_running (e : Env) (rc : Z) (pc : wpc) (s : AppState) :
  running (snd (fst (serial_worker_step e rc pc s))) = running s
  /\ Forall (fun ev => written_cell ev <> Some CRunning)
            (snd (serial_worker_step e rc pc s)).
Proof.
  pose proof (serial_worker_step_writes e rc pc s) as (_ & H1 & H2).
  split; [exact H1|].
  eapply Forall_impl; [|exact H2].
  intros ev [H|H]; rewrite H; discriminate.
Qed.

Lemma sys_step_running (e : Env) (fl_measure : string -> Z * Z) (panel : Widget)
    (sy : Sys) (c : choice) :
  running (app (fst (sys_step e fl_measure panel sy c)))
  = running (app sy) && negb (is_stop c)
  /\ running_stores (snd (sys_step e fl_measure panel sy c))
     = if is_stop c then [(TUi, false)] else [].
Proof.
  destruct c as [rc|rc| |]; cbn [sys_step is_stop negb].
  - pose proof (network_worker_step_running e rc (net_pc sy) (app sy)) as [H1 H2].
    destruct (network_worker_step e rc (net_pc sy) (app sy)) as [[pc s] tr].
    cbn [fst snd app] in *. rewrite H1, andb_true_r.
    split; [reflexivity | apply running_stores_none, H2].
  - pose proof (serial_worker_step_running e rc (ser_pc sy) (app sy)) as [H1 H2].
    destruct (serial_worker_step e rc (ser_pc sy) (app sy)) as [[pc s] tr].
    cbn [fst snd app] in *. rewrite H1, andb_true_r.
    split; [reflexivity | apply running_stores_none, H2].
  - pose proof (ui_timer_cb_read_only fl_measure panel (app sy)) as Hro.
    rewrite ui_timer_cb_run in *. cbn [fst snd app] in *.
    rewrite andb_true_r. split; [reflexivity|].
    apply running_stores_none.
    eapply Forall_impl; [|exact Hro].
    intros ev Hev. rewrite (read_only_event_no_store ev Hev). discriminate.
  - cbn. rewrite andb_false_r. split; reflexivity.
Qed.

(** X10.  The running flag only ever goes from true to false, and only
    the UI thread's stop path writes it: after any schedule the flag is
    what it was, cleared if the schedule contains a stop, and every store to
    the flag in the trace is a store of [false] by the UI thread, one per
    stop. *)
Theorem running_flag_only_stopped (e : Env) (fl_measure : string -> Z * Z)
    (panel : Widget) (sched : list choice) (sy : Sys) :
  running (app (fst (exec e fl_measure panel sy sched)))
  = running (app sy) && negb (existsb is_stop sched)
  /\ running_stores (snd (exec e fl_measure panel sy sched))
     = repeat (TUi, false) (List.length (filter is_stop sched)).
Proof.
  revert sy. induction sched as [|c sched IH]; intros sy.
  - cbn. rewrite andb_true_r. split; reflexivity.
  - cbn [exec existsb filter].
    pose proof (sys_step_running e fl_measure panel sy c) as [H1 H2].
    destruct (sys_step e fl_measure panel sy c) as [sy1 t1].
    destruct (IH sy1) as [K1 K2].
    destruct (exec e fl_measure panel sy1 sched) as [sy2 t2].
    cbn [fst snd] in *.
    rewrite running_stores_app, H2, K1, K2, H1.
    destruct (is_stop c); cbn [negb orb List.length repeat List.app].
    + rewrite andb_false_r. split; reflexivity.
    + rewrite andb_true_r. split; reflexivity.
Qed.

(** ** What the workers run and probe *)

Lemma commands_of_app (t : tid) (a b : list (tid * event)) :
  commands_of t (a ++ b) = (commands_of t a ++ commands_of t b)%list.
Proof.
  induction a as [|[t' ev] a IH]; cbn [List.app commands_of]; [reflexivity|].
  destruct ev; try exact IH.
  destruct (tid_eqb t' t); cbn [List.app]; rewrite IH; reflexivity.
Qed.

Lemma accesses_of_app (t : tid) (a b : list (tid * event)) :
  accesses_of t (a ++ b) = (accesses_of t a ++ accesses_of t b)%list.
Proof.
  induction a as [|[t' ev] a IH]; cbn [List.app accesses_of]; [reflexivity|].
  destruct ev; try exact IH.
  destruct (tid_eqb t' t); cbn [List.app]; rewrite IH; reflexivity.
Qed.

Lemma commands_of_other (t t' : tid) (tr : list event) :
  tid_eqb t' t = false -> commands_of t (map (pair t') tr) = [].
Proof.
  intros Ht. induction tr as [|ev tr IH]; [reflexivity|].
  cbn [map commands_of]. destruct ev; try exact IH. rewrite Ht. exact IH.
Qed.

Lemma accesses_of_other (t t' : tid) (tr : list event) :
  tid_eqb t' t = false -> accesses_of t (map (pair t') tr) = [].
Proof.
  intros Ht. induction tr as [|ev tr IH]; [reflexivity|].
  cbn [map accesses_of]. destruct ev; try exact IH. rewrite Ht. exact IH.
Qed.

Lemma commands_of_accesses (t t' : tid) (l : list string) (tr : list event) :
  commands_of t (map (pair t') (map EvAccess l ++ tr))
  = commands_of t (map (pair t') tr).
Proof.
  induction l as [|a l IH]; [reflexivity | exact IH].
Qed.

Lemma accesses_of_accesses (t : tid) (l : list string) :
  accesses_of t (map (pair t) (map EvAccess l)) = l.
Proof.
  induction l as [|a l IH]; [reflexivity|].
  cbn [map accesses_of].
  replace (tid_eqb t t) with true by (destruct t; reflexivity).
  rewrite IH. reflexivity.
Qed.

Lemma string_empty_false (s : string) :
  s <> EmptyString -> string_empty s = false.
Proof. destruct s; [congruence | reflexivity]. Qed.

Lemma string_empty_true (s : string) :
  string_empty s = true -> s = EmptyString.
Proof. destruct s; [reflexivity | discriminate]. Qed.

(** A step of [network_worker] keeps its locals as built at entry, runs no
    command but the one built there, and calls [access] only in its entry
    step. *)
Lemma network_worker_step_resolved (e : Env) (rc : Z) (pc : wpc) (s : AppState) :
  pc_resolved e "test_network.sh" pc ->
  let r := network_worker_step e rc pc s in
  pc_resolved e "test_network.sh" (fst (fst r))
  /\ fst (fst r) <> PEntry
  /\ Forall (fun cmd => cmd = command_line (resolve_path e "test_network.sh")
                        /\ resolve_path e "test_network.sh" <> EmptyString)
            (commands_of TNetwork (map (pair TNetwork) (snd r)))
  /\ accesses_of TNetwork (map (pair TNetwork) (snd r))
     = match pc with
       | PEntry => resolve_path_probes e "test_network.sh"
       | _ => []
       end.
Proof.
  intros Hpc. destruct pc as [|cmd|cmd|cmd i|cmd i|]; cbn zeta.
  - cbn [network_worker_step]. unfold bind, emit, ret, serial_store.
    destruct (string_empty (resolve_path e "test_network.sh")) eqn:He;
      cbn [fst snd]; rewrite ?app_nil_r.
    + rewrite commands_of_accesses, map_app, accesses_of_app,
        accesses_of_accesses.
      cbn. rewrite app_nil_r. repeat split; try discriminate. constructor.
    + rewrite accesses_of_accesses.
      rewrite <- (app_nil_r (map EvAccess _)), commands_of_accesses.
      cbn. repeat split; try discriminate; try constructor.
      intros H. rewrite H in He. discriminate.
  - cbn. destruct (running s); cbn; repeat split; try discriminate;
      try constructor; apply Hpc.
  - cbn. repeat split; try discriminate; try apply Hpc.
    constructor; [exact Hpc | constructor].
  - cbn. destruct (i <? 40); cbn; [destruct (running s)|]; cbn;
      repeat split; try discriminate; try constructor; apply Hpc.
  - cbn. repeat split; try discriminate; try constructor; apply Hpc.
  - cbn. repeat split; try constructor. intros H. discriminate H.
Qed.

Lemma serial_worker_step_resolved (e : Env) (rc : Z) (pc : wpc) (s : AppState) :
  pc_resolved e "test_serial.sh" pc ->
  let r := serial_worker_step e rc pc s in
  pc_resolved e "test_serial.sh" (fst (fst r))
  /\ fst (fst r) <> PEntry
  /\ Forall (fun cmd => cmd = command_line (resolve_path e "test_serial.sh")
                        /\ resolve_path e "test_serial.sh" <> EmptyString)
            (commands_of TSerial (map (pair TSerial) (snd r)))
  /\ accesses_of TSerial (map (pair TSerial) (snd r))
     = match pc with
       | PEntry => resolve_path_probes e "test_serial.sh"
       | _ => []
       end.
Proof.
  intros Hpc. destruct pc as [|cmd|cmd|cmd i|cmd i|]; cbn zeta.
  - cbn [serial_worker_step]. unfold bind, emit, ret, serial_store.
    destruct (string_empty (resolve_path e "test_serial.sh")) eqn:He;
      cbn [fst snd]; rewrite ?app_nil_r.
    + rewrite commands_of_accesses, map_app, accesses_of_app,
        accesses_of_accesses.
      cbn. rewrite app_nil_r. repeat split; try discriminate. constructor.
    + rewrite accesses_of_accesses.
      rewrite <- (app_nil_r (map EvAccess _)), commands_of_accesses.
      cbn. repeat split; try discriminate; try constructor.
      intros H. rewrite H in He. discriminate.
  - cbn. destruct (running s); cbn; repeat split; try discriminate;
      try constructor; apply Hpc.
  - cbn. repeat split; try discriminate; try apply Hpc.
    constructor; [exact Hpc | constructor].
  - cbn. destruct (i <? 40); cbn; [destruct (running s)|]; cbn;
      repeat split; try discriminate; try constructor; apply Hpc.
  - cbn. repeat split; try discriminate; try constructor; apply Hpc.
  - cbn. repeat split; try constructor. intros H. discriminate H.
Qed.

Section Resolved.

Variable e : Env.
Variable fl_measure : string -> Z * Z.
Variable panel : Widget.

Let runs_resolved (t : tid) : list string -> Prop :=
  Forall (fun cmd => cmd = command_line (resolve_path e (script_of t))
                     /\ resolve_path e (script_of t) <> EmptyString).

Lemma sys_step_resolved (t : tid) (sy : Sys) (c : choice) :
  t <> TUi ->
  pc_resolved e (script_of t) (pc_of t sy) ->
  let r := sys_step e fl_measure panel sy c in
  pc_resolved e (script_of t) (pc_of t (fst r))
  /\ runs_resolved t (commands_of t (snd r))
  /\ ((pc_of t (fst r) = pc_of t sy /\ accesses_of t (snd r) = [])
      \/ (pc_of t (fst r) <> PEntry
          /\ accesses_of t (snd r)
             = match pc_of t sy with
               | PEntry => resolve_path_probes e (script_of t)
               | _ => []
               end)).
Proof.
  intros Ht Hpc. unfold runs_resolved.
  destruct c as [rc|rc| |]; cbn [sys_step]; cbn zeta.
  - pose proof (network_worker_step_resolved e rc (net_pc sy) (app sy)) as H.
    destruct (network_worker_step e rc (net_pc sy) (app sy)) as [[pc s] tr].
    cbn [fst snd] in *.
    destruct t; [|clear H|congruence]; cbn [pc_of net_pc ser_pc script_of] in *.
    + destruct (H Hpc) as (H1 & H2 & H3 & H4).
      split; [exact H1|]. split; [exact H3|]. right. split; assumption.
    + rewrite commands_of_other, accesses_of_other by reflexivity.
      split; [exact Hpc|]. split; [constructor|]. left. split; reflexivity.
  - pose proof (serial_worker_step_resolved e rc (ser_pc sy) (app sy)) as H.
    destruct (serial_worker_step e rc (ser_pc sy) (app sy)) as [[pc s] tr].
    cbn [fst snd] in *.
    destruct t; [clear H| |congruence]; cbn [pc_of net_pc ser_pc script_of] in *.
    + rewrite commands_of_other, accesses_of_other by reflexivity.
      split; [exact Hpc|]. split; [constructor|]. left. split; reflexivity.
    + destruct (H Hpc) as (H1 & H2 & H3 & H4).
      split; [exact H1|]. split; [exact H3|]. right. split; assumption.
  - destruct (ui_timer_cb fl_measure panel (app sy)) as [[u s] tr].
    cbn [fst snd].
    rewrite commands_of_other, accesses_of_other
      by (destruct t; [reflexivity | reflexivity | congruence]).
    split; [destruct t; exact Hpc|]. split; [constructor|].
    left. split; [destruct t|]; reflexivity.
  - cbn [stop_cb running_store fst snd].
    rewrite commands_of_other, accesses_of_other
      by (destruct t; [reflexivity | reflexivity | congruence]).
    split; [destruct t; exact Hpc|]. split; [constructor|].
    left. split; [destruct t|]; reflexivity.
Qed.

Lemma exec_resolved (t : tid) (sched : list choice) (sy : Sys) :
  t <> TUi ->
  pc_resolved e (script_of t) (pc_of t sy) ->
  let r := exec e fl_measure panel sy sched in
  runs_resolved t (commands_of t (snd r))
  /\ (pc_of t sy <> PEntry ->
      pc_of t (fst r) <> PEntry /\ accesses_of t (snd r) = [])
  /\ (pc_of t sy = PEntry ->
      (pc_of t (fst r) = PEntry /\ accesses_of t (snd r) = [])
      \/ (pc_of t (fst r) <> PEntry
          /\ accesses_of t (snd r) = resolve_path_probes e (script_of t))).
Proof.
  intros Ht. revert sy. unfold runs_resolved.
  induction sched as [|c sched IH]; intros sy Hpc; cbn zeta.
  - cbn [exec fst snd commands_of accesses_of].
    split; [constructor|]. split; [intros H; split; [exact H | reflexivity]|].
    intros H. left. split; [exact H | reflexivity].
  - cbn [exec].
    pose proof (sys_step_resolved t sy c Ht Hpc) as (H1 & H2 & H3).
    destruct (sys_step e fl_measure panel sy c) as [sy1 t1].
    cbn [fst snd] in *.
    pose proof (IH sy1 H1) as (K1 & K2 & K3).
    destruct (exec e fl_measure panel sy1 sched) as [sy2 t2].
    cbn [fst snd] in *.
    rewrite commands_of_app, accesses_of_app.
    split; [apply Forall_app; split; assumption|].
    destruct H3 as [[Hsame Hacc]|[Hnew Hacc]]; rewrite Hacc.
    + rewrite Hsame in *. cbn [List.app]. split; assumption.
    + destruct (K2 Hnew) as [Kpc Kacc]. rewrite Kacc, app_nil_r.
      split.
      * intros Hne. split; [exact Kpc|].
        destruct (pc_of t sy); [congruence| | | | |]; reflexivity.
      * intros Heq. right. split; [exact Kpc|]. rewrite Heq. reflexivity.
Qed.

End Resolved.

(** X11.  However the threads are scheduled from program start, each
    worker only ever runs one command: its own script as resolved at entry,
    quoted, with output sent to [/dev/null]; the resolved path is non-empty
    and passed the executable test. *)
Theorem workers_run_only_resolved_script (e : Env) (fl_measure : string -> Z * Z)
    (panel : Widget) (sched : list choice) :
  let tr := snd (exec e fl_measure panel Sys_init sched) in
  Forall (fun cmd =>
            cmd = "'" ++ resolve_path e "test_network.sh" ++ "' >/dev/null 2>&1"
            /\ access_X_OK e (resolve_path e "test_network.sh") = true)
         (commands_of TNetwork tr)
  /\ Forall (fun cmd =>
               cmd = "'" ++ resolve_path e "test_serial.sh" ++ "' >/dev/null 2>&1"
               /\ access_X_OK e (resolve_path e "test_serial.sh") = true)
            (commands_of TSerial tr).
Proof.
  cbn zeta. split.
  - assert (Ht : TNetwork <> TUi) by discriminate.
    pose proof (exec_resolved e fl_measure panel TNetwork sched Sys_init Ht I)
      as (H & _).
    eapply Forall_impl; [|exact H].
    cbn [script_of]. intros cmd [-> Hne]. split; [reflexivity|].
    unfold resolve_path in *. revert Hne.
    rewrite resolve_path_trace_spec. cbn [fst]. intros Hne.
    apply (first_hit_sound _ _ Hne).
  - assert (Ht : TSerial <> TUi) by discriminate.
    pose proof (exec_resolved e fl_measure panel TSerial sched Sys_init Ht I)
      as (H & _).
    eapply Forall_impl; [|exact H].
    cbn [script_of]. intros cmd [-> Hne]. split; [reflexivity|].
    unfold resolve_path in *. revert Hne.
    rewrite resolve_path_trace_spec. cbn [fst]. intros Hne.
    apply (first_hit_sound _ _ Hne).
Qed.

(** X12.  However the threads are scheduled from program start, each
    worker resolves its script once: the [access] calls of a worker are
    none while it has not run its entry step, and afterwards exactly those
    of one [resolve_path] of its own script, never repeated. *)
Theorem workers_resolve_once (e : Env) (fl_measure : string -> Z * Z)
    (panel : Widget) (sched : list choice) :
  let r := exec e fl_measure panel Sys_init sched in
  ((net_pc (fst r) = PEntry /\ accesses_of TNetwork (snd r) = [])
   \/ (net_pc (fst r) <> PEntry
       /\ accesses_of TNetwork (snd r)
          = resolve_path_probes e "test_network.sh"))
  /\ ((ser_pc (fst r) = PEntry /\ accesses_of TSerial (snd r) = [])
      \/ (ser_pc (fst r) <> PEntry
          /\ accesses_of TSerial (snd r)
             = resolve_path_probes e "test_serial.sh")).
Proof.
  cbn zeta. split.
  - assert (Ht : TNetwork <> TUi) by discriminate.
    pose proof (exec_resolved e fl_measure panel TNetwork sched Sys_init Ht I)
      as (_ & _ & H).
    exact (H eq_refl).
  - assert (Ht : TSerial <> TUi) by discriminate.
    pose proof (exec_resolved e fl_measure panel TSerial sched Sys_init Ht I)
      as (_ & _ & H).
    exact (H eq_refl).
Qed.

(** ** When a cell stops being Unknown *)

Lemma run_command_success_known (rc : Z) : run_command_success rc <> Unknown.
Proof. unfold run_command_success. destruct (rc =? 0); discriminate. Qed.

(** What one fine step of [network_worker] does to the network cell. *)
Lemma network_worker_fine_network_cell (e : Env) (rc : Z) (pc : fpc) (s : AppState) :
  let r := network_worker_fine e rc pc s in
  (network s <> Unknown -> network (snd (fst r)) <> Unknown)
  /\ (before_call pc ->
      (1 <= List.length (filter is_system (snd r)))%nat
      \/ (network (snd (fst r)) = network s /\ before_call (fst (fst r)))).
Proof.
  fine_cases e "test_network.sh" pc s;
    (split; [intros Hk; try exact Hk; apply run_command_success_known|]);
    intros Hb; try contradiction;
    first [right; split; [reflexivity | exact I] | left; lia].
Qed.

Lemma network_worker_fine_serial_cell (e : Env) (rc : Z) (pc : fpc) (s : AppState) :
  pc <> FEntry \/ resolve_path e "test_network.sh" <> EmptyString ->
  serial (snd (fst (network_worker_fine e rc pc s))) = serial s.
Proof.
  intros Hok.
  destruct pc as [|cmd|cmd|cmd|cmd rc'|cmd i|cmd i|]; cbn;
    try destruct (i <? 40); try reflexivity.
  destruct Hok as [Hok|Hok]; [congruence|].
  unfold bind, emit. rewrite (string_empty_false _ Hok). reflexivity.
Qed.

Lemma serial_worker_fine_network_cell (e : Env) (rc : Z) (pc : fpc) (s : AppState) :
  network (snd (fst (serial_worker_fine e rc pc s))) = network s.
Proof. fine_cases e "test_serial.sh" pc s; reflexivity. Qed.

(** What one fine step of [serial_worker] does to the serial cell. *)
Lemma serial_worker_fine_serial_cell (e : Env) (rc : Z) (pc : fpc) (s : AppState) :
  let r := serial_worker_fine e rc pc s in
  fst (fst r) <> FEntry
  /\ (pc <> FEntry -> serial s <> Unknown -> serial (snd (fst r)) <> Unknown)
  /\ (before_call pc -> serial s = Unknown ->
      (1 <= List.length (filter is_system (snd r)))%nat
      \/ (serial (snd (fst r)) = Unknown /\ before_call (fst (fst r)))).
Proof.
  fine_cases e "test_serial.sh" pc s;
    (split; [discriminate|]);
    (split; [intros Hpc Hk; try congruence; try exact Hk;
             apply run_command_success_known|]);
    intros Hb Hu; try contradiction;
    first [right; split; [first [reflexivity | exact Hu] | exact I]
          | left; lia].
Qed.

Section FineCells.

Variable e : Env.
Variable fl_measure : string -> Z * Z.
Variable panel : Widget.

Lemma fexec_network_known (sched : list choice) (sy : FSys) :
  network (fapp sy) <> Unknown ->
  network (fapp (fst (fexec e fl_measure panel sy sched))) <> Unknown.
Proof.
  revert sy. induction sched as [|c sched IH]; intros sy Hk; [exact Hk|].
  rewrite fexec_cons. cbn [fst]. apply IH.
  destruct c as [rc|rc| |]; cbn [fsys_step].
  - pose proof (network_worker_fine_network_cell e rc (fnet sy) (fapp sy))
      as [H _].
    destruct (network_worker_fine e rc (fnet sy) (fapp sy)) as [[pc s] tr].
    cbn [fst snd fapp] in *. exact (H Hk).
  - pose proof (serial_worker_fine_network_cell e rc (fser sy) (fapp sy)) as H.
    destruct (serial_worker_fine e rc (fser sy) (fapp sy)) as [[pc s] tr].
    cbn [fst snd fapp] in *. rewrite H. exact Hk.
  - rewrite ui_timer_cb_run. exact Hk.
  - exact Hk.
Qed.

Lemma fexec_network_probed (sched : list choice) (sy : FSys) :
  network (fapp sy) = Unknown -> before_call (fnet sy) ->
  network (fapp (fst (fexec e fl_measure panel sy sched))) <> Unknown ->
  (1 <= events_of TNetwork is_system
          (snd (fexec e fl_measure panel sy sched)))%nat.
Proof.
  revert sy. induction sched as [|c sched IH]; intros sy Hu Hb Hk.
  - cbn in Hk. congruence.
  - rewrite fexec_cons in *. cbn [fst snd] in *. rewrite events_of_app.
    assert (Hstep :
      (1 <= events_of TNetwork is_system
              (snd (fsys_step e fl_measure panel sy c)))%nat
      \/ (network (fapp (fst (fsys_step e fl_measure panel sy c))) = Unknown
          /\ before_call (fnet (fst (fsys_step e fl_measure panel sy c))))).
    { destruct c as [rc|rc| |]; cbn [fsys_step].
      - pose proof (network_worker_fine_network_cell e rc (fnet sy) (fapp sy))
          as [_ H].
        destruct (network_worker_fine e rc (fnet sy) (fapp sy)) as [[pc s] tr].
        cbn [fst snd fapp fnet] in *. rewrite events_of_map_pair.
        cbn [tid_eqb]. destruct (H Hb) as [H1|[H1 H2]]; [left; exact H1|].
        right. split; [congruence | exact H2].
      - pose proof (serial_worker_fine_network_cell e rc (fser sy) (fapp sy))
          as H.
        destruct (serial_worker_fine e rc (fser sy) (fapp sy)) as [[pc s] tr].
        cbn [fst snd fapp fnet] in *. right. split; [congruence | exact Hb].
      - rewrite ui_timer_cb_run. cbn [fst snd fapp fnet].
        right. split; assumption.
      - cbn. right. split; assumption. }
    destruct Hstep as [H1|[H1 H2]]; [lia|].
    specialize (IH _ H1 H2 Hk). lia.
Qed.

Hypothesis network_found : resolve_path e "test_network.sh" <> EmptyString.

Lemma fexec_serial_known (sched : list choice) (sy : FSys) :
  fser sy <> FEntry -> serial (fapp sy) <> Unknown ->
  serial (fapp (fst (fexec e fl_measure panel sy sched))) <> Unknown.
Proof.
  revert sy. induction sched as [|c sched IH]; intros sy Hpc Hk; [exact Hk|].
  rewrite fexec_cons. cbn [fst].
  assert (Hstep :
    fser (fst (fsys_step e fl_measure panel sy c)) <> FEntry
    /\ serial (fapp (fst (fsys_step e fl_measure panel sy c))) <> Unknown).
  { destruct c as [rc|rc| |]; cbn [fsys_step].
    - pose proof (network_worker_fine_serial_cell e rc (fnet sy) (fapp sy)
                    (or_intror network_found)) as H.
      destruct (network_worker_fine e rc (fnet sy) (fapp sy)) as [[pc s] tr].
      cbn [fst snd fapp fser] in *. rewrite H. split; assumption.
    - pose proof (serial_worker_fine_serial_cell e rc (fser sy) (fapp sy))
        as (H1 & H2 & _).
      destruct (serial_worker_fine e rc (fser sy) (fapp sy)) as [[pc s] tr].
      cbn [fst snd fapp fser] in *. split; [exact H1 | exact (H2 Hpc Hk)].
    - rewrite ui_timer_cb_run. split; assumption.
    - split; assumption. }
  apply IH; apply Hstep.
Qed.

Lemma fexec_serial_probed (sched : list choice) (sy : FSys) :
  serial (fapp sy) = Unknown -> before_call (fser sy) ->
  serial (fapp (fst (fexec e fl_measure panel sy sched))) <> Unknown ->
  (1 <= events_of TSerial is_system
          (snd (fexec e fl_measure panel sy sched)))%nat.
Proof.
  revert sy. induction sched as [|c sched IH]; intros sy Hu Hb Hk.
  - cbn in Hk. congruence.
  - rewrite fexec_cons in *. cbn [fst snd] in *. rewrite events_of_app.
    assert (Hstep :
      (1 <= events_of TSerial is_system
              (snd (fsys_step e fl_measure panel sy c)))%nat
      \/ (serial (fapp (fst (fsys_step e fl_measure panel sy c))) = Unknown
          /\ before_call (fser (fst (fsys_step e fl_measure panel sy c))))).
    { destruct c as [rc|rc| |]; cbn [fsys_step].
      - pose proof (network_worker_fine_serial_cell e rc (fnet sy) (fapp sy)
                      (or_intror network_found)) as H.
        destruct (network_worker_fine e rc (fnet sy) (fapp sy)) as [[pc s] tr].
        cbn [fst snd fapp fser] in *. right. split; [congruence | exact Hb].
      - pose proof (serial_worker_fine_serial_cell e rc (fser sy) (fapp sy))
          as (_ & _ & H).
        destruct (serial_worker_fine e rc (fser sy) (fapp sy)) as [[pc s] tr].
        cbn [fst snd fapp fser] in *. rewrite events_of_map_pair.
        cbn [tid_eqb]. exact (H Hb Hu).
      - rewrite ui_timer_cb_run. cbn [fst snd fapp fser].
        right. split; assumption.
      - cbn. right. split; assumption. }
    destruct Hstep as [H1|[H1 H2]]; [lia|].
    specialize (IH _ H1 H2 Hk). lia.
Qed.

End FineCells.

(** X13.  At the grain where the call of [std::system] and the store of
    its outcome are separate steps, and under every schedule: a network
    cell that reads Ok or Fail never reads Unknown again, and from program
    start it reads Ok or Fail only after the network worker has called
    [std::system].  The same holds for the serial cell and the serial
    worker provided [test_network.sh] resolves. *)
Theorem cells_unknown_until_probed (e : Env) (fl_measure : string -> Z * Z)
    (panel : Widget) :
  (forall sy sched,
      network (fapp sy) <> Unknown ->
      network (fapp (fst (fexec e fl_measure panel sy sched))) <> Unknown)
  /\ (forall sched,
        network (fapp (fst (fexec e fl_measure panel FSys_init sched)))
        <> Unknown ->
        (1 <= events_of TNetwork is_system
                (snd (fexec e fl_measure panel FSys_init sched)))%nat)
  /\ (resolve_path e "test_network.sh" <> EmptyString ->
      (forall sy sched,
          fser sy <> FEntry -> serial (fapp sy) <> Unknown ->
          serial (fapp (fst (fexec e fl_measure panel sy sched))) <> Unknown)
      /\ (forall sched,
            serial (fapp (fst (fexec e fl_measure panel FSys_init sched)))
            <> Unknown ->
            (1 <= events_of TSerial is_system
                    (snd (fexec e fl_measure panel FSys_init sched)))%nat)).
Proof.
  split; [|split].
  - intros sy sched. apply fexec_network_known.
  - intros sched. apply fexec_network_probed; [reflexivity | exact I].
  - intros Hfound. split.
    + intros sy sched. apply fexec_serial_known, Hfound.
    + intros sched.
      apply fexec_serial_probed; [exact Hfound | reflexivity | exact I].
Qed.

Lemma cells_unknown_until_probed_witness :
  (1 <= events_of TSerial is_system
          (snd (fexec env_both measure_fixed panel_main FSys_init
                  [RunSerial 0; RunSerial 0; RunSerial 0; RunNetwork 0;
                   RunSerial 3; RunSerial 0])))%nat.
Proof.
  refine (proj2 (proj2 (proj2 (cells_unknown_until_probed
                                 env_both measure_fixed panel_main)) _) _ _).
  - vm_compute. discriminate.
  - vm_compute. discriminate.
Defined.

(** ** Independence of the two workers *)

(** X14.  Consecutive steps of the two workers can be swapped without
    changing where the program ends up (shared state and both workers'
    positions), except for the entry step of [network_worker] when its
    script is missing. *)
Theorem worker_steps_commute (e : Env) (fl_measure : string -> Z * Z)
    (panel : Widget) (sy : Sys) (a b : Z) :
  net_pc sy <> PEntry \/ resolve_path e "test_network.sh" <> EmptyString ->
  fst (exec e fl_measure panel sy [RunNetwork a; RunSerial b])
  = fst (exec e fl_measure panel sy [RunSerial b; RunNetwork a]).
Proof.
  intros Hok. destruct sy as [[w x r] npc spc]. cbn [net_pc] in Hok.
  assert (Hn : npc = PEntry ->
               string_empty (resolve_path e "test_network.sh") = false).
  { intros ->. destruct Hok as [Hok|Hok]; [congruence|].
    apply string_empty_false, Hok. }
  clear Hok. cbn [exec sys_step].
  unfold network_worker_step, serial_worker_step.
  set (pn := resolve_path e "test_network.sh") in *.
  set (qn := resolve_path_probes e "test_network.sh").
  set (ps := resolve_path e "test_serial.sh").
  set (qs := resolve_path_probes e "test_serial.sh").
  clearbody pn qn ps qs.
  destruct npc as [|cmd|cmd|cmd i|cmd i|];
    [rewrite (Hn eq_refl) | | | | |]; clear Hn;
    destruct spc as [|cmd'|cmd'|cmd' i'|cmd' i'|];
    cbn;
    repeat match goal with
           | H : ?c = _ |- context [if ?c then _ else _] => rewrite H; cbn
           | |- context [if ?c then _ else _] => destruct c eqn:?; cbn
           end;
    reflexivity.
Qed.

Lemma worker_steps_commute_witness :
  fst (exec env_both measure_fixed panel_main Sys_init
         [RunNetwork 0; RunSerial 0])
  = fst (exec env_both measure_fixed panel_main Sys_init
           [RunSerial 0; RunNetwork 0]).
Proof.
  apply worker_steps_commute. right. vm_compute. discriminate.
Defined.

(** The entry step of [network_worker] with its script missing is the
    exception: it does not commute with a serial probe result. *)
Lemma worker_steps_conflict :
  let sy := mkSys (mkAppState Unknown Unknown true) PEntry (PBody "c") in
  fst (exec env_serial_only measure_fixed panel_main sy
         [RunNetwork 0; RunSerial 0])
  <> fst (exec env_serial_only measure_fixed panel_main sy
            [RunSerial 0; RunNetwork 0]).
Proof. vm_compute. discriminate. Qed.

(** ** Rounds of the worker loops *)

Lemma network_round (e : Env) (fl_measure : string -> Z * Z) (panel : Widget)
    (cmd : string) (opc : wpc) (w x : ProbeState) (rc : Z) :
  exec e fl_measure panel
       (mkSys (mkAppState w x true) (PWhile cmd) opc)
       (repeat (RunNetwork rc) 83)
  = (mkSys (mkAppState (run_command_success rc) x true) (PWhile cmd) opc,
     [(TNetwork, EvLoad CRunning); (TNetwork, EvSystem cmd);
      (TNetwork, EvStoreNetwork (run_command_success rc))]
     ++ full_sleep TNetwork)%list.
Proof. vm_compute. reflexivity. Qed.

Lemma serial_round (e : Env) (fl_measure : string -> Z * Z) (panel : Widget)
    (cmd : string) (opc : wpc) (w x : ProbeState) (rc : Z) :
  exec e fl_measure panel
       (mkSys (mkAppState w x true) opc (PWhile cmd))
       (repeat (RunSerial rc) 83)
  = (mkSys (mkAppState w (run_command_success rc) true) opc (PWhile cmd),
     [(TSerial, EvLoad CRunning); (TSerial, EvSystem cmd);
      (TSerial, EvStoreSerial (run_command_success rc))]
     ++ full_sleep TSerial)%list.
Proof. vm_compute. reflexivity. Qed.

Lemma commands_of_full_sleep (t t' : tid) : commands_of t (full_sleep t') = [].
Proof. vm_compute. destruct t, t'; reflexivity. Qed.

Lemma slept_ms_full_sleep (t : tid) : slept_ms t (full_sleep t) = 2000.
Proof. destruct t; vm_compute; reflexivity. Qed.

Lemma last_cons_default {A : Type} (l : list A) (a d d' : A) :
  last (a :: l) d = last (a :: l) d'.
Proof.
  revert a. induction l as [|b l IH]; intros a; [reflexivity|].
  change (last (b :: l) d = last (b :: l) d'). apply IH.
Qed.

(** X15.  While [running] stays true, a worker left to itself goes round
    its loop once per 83 steps: each round runs the command exactly once,
    publishes that run's outcome in the worker's own cell and sleeps
    2000 ms.  After [n] rounds the command has run [n] times, 2000 n ms were
    slept, the cell holds the outcome of the last run (or its old value if
    [n] is 0), the other cell is untouched and the worker is back at the
    loop check. *)
Theorem worker_rounds (e : Env) (fl_measure : string -> Z * Z) (panel : Widget)
    (cmd : string) (opc : wpc) (rcs : list Z) (w x : ProbeState) :
  (let r := exec e fl_measure panel
              (mkSys (mkAppState w x true) (PWhile cmd) opc)
              (network_rounds rcs) in
   fst r = mkSys (mkAppState (last (map run_command_success rcs) w) x true)
                 (PWhile cmd) opc
   /\ commands_of TNetwork (snd r) = repeat cmd (List.length rcs)
   /\ slept_ms TNetwork (snd r) = 2000 * Z.of_nat (List.length rcs))
  /\ (let r := exec e fl_measure panel
                 (mkSys (mkAppState w x true) opc (PWhile cmd))
                 (serial_rounds rcs) in
      fst r = mkSys (mkAppState w (last (map run_command_success rcs) x) true)
                    opc (PWhile cmd)
      /\ commands_of TSerial (snd r) = repeat cmd (List.length rcs)
      /\ slept_ms TSerial (snd r) = 2000 * Z.of_nat (List.length rcs)).
Proof.
  cbn zeta. split.
  - revert w. induction rcs as [|rc rcs IH]; intros w.
    + cbn. repeat split.
    + unfold network_rounds in *. cbn [flat_map].
      rewrite exec_app, network_round. cbn [fst snd].
      destruct (IH (run_command_success rc)) as (H1 & H2 & H3).
      rewrite H1, commands_of_app, slept_ms_app, H2, H3.
      rewrite commands_of_app, slept_ms_app, commands_of_full_sleep,
        slept_ms_full_sleep.
      cbn [commands_of tid_eqb slept_ms List.app List.length repeat map].
      split; [|split; [reflexivity | lia]].
      f_equal. f_equal.
      destruct rcs as [|rc' rcs]; [reflexivity|].
      exact (last_cons_default (map run_command_success rcs)
               (run_command_success rc') (run_command_success rc) w).
  - revert x. induction rcs as [|rc rcs IH]; intros x.
    + cbn. repeat split.
    + unfold serial_rounds in *. cbn [flat_map].
      rewrite exec_app, serial_round. cbn [fst snd].
      destruct (IH (run_command_success rc)) as (H1 & H2 & H3).
      rewrite H1, commands_of_app, slept_ms_app, H2, H3.
      rewrite commands_of_app, slept_ms_app, commands_of_full_sleep,
        slept_ms_full_sleep.
      cbn [commands_of tid_eqb slept_ms List.app List.length repeat map].
      split; [|split; [reflexivity | lia]].
      f_equal. f_equal.
      destruct rcs as [|rc' rcs]; [reflexivity|].
      exact (last_cons_default (map run_command_success rcs)
               (run_command_success rc') (run_command_success rc) x).
Qed.

(** ** The refresh timer and the workers *)

Lemma events_of_ui (t : tid) (p : event -> bool) (tr : list event) :
  t <> TUi -> events_of t p (map (pair TUi) tr) = 0%nat.
Proof.
  intros Ht. rewrite events_of_map_pair.
  destruct t; [reflexivity | reflexivity | congruence].
Qed.

(** X16.  The refresh timer is invisible to the rest of the program:
    dropping every timer firing from a schedule changes neither where the
    program ends up (shared state and both workers' positions) nor how many
    events of any kind either worker produces. *)
Theorem ui_timer_invisible (e : Env) (fl_measure : string -> Z * Z)
    (panel : Widget) (sched : list choice) (sy : Sys) :
  let quiet := filter (fun c => negb (is_timer c)) sched in
  fst (exec e fl_measure panel sy sched)
  = fst (exec e fl_measure panel sy quiet)
  /\ (forall t p, t <> TUi ->
        events_of t p (snd (exec e fl_measure panel sy sched))
        = events_of t p (snd (exec e fl_measure panel sy quiet))).
Proof.
  cbn zeta. revert sy. induction sched as [|c sched IH]; intros sy.
  - split; [reflexivity | intros; reflexivity].
  - destruct (is_timer c) eqn:Hc.
    + destruct c; try discriminate Hc.
      cbn [filter is_timer negb exec sys_step].
      rewrite ui_timer_cb_run.
      replace (mkSys (app sy) (net_pc sy) (ser_pc sy)) with sy
        by (destruct sy; reflexivity).
      destruct (IH sy) as [H1 H2].
      destruct (exec e fl_measure panel sy sched) as [sy2 t2].
      cbn [fst snd] in *. split; [exact H1|].
      intros t p Ht. rewrite events_of_app, events_of_ui by exact Ht.
      apply H2, Ht.
    + cbn [filter]. rewrite Hc. cbn [negb exec].
      destruct (sys_step e fl_measure panel sy c) as [sy1 t1].
      destruct (IH sy1) as [H1 H2].
      destruct (exec e fl_measure panel sy1 sched) as [sy2 t2].
      destruct (exec e fl_measure panel sy1
                  (filter (fun c0 => negb (is_timer c0)) sched)) as [sy3 t3].
      cbn [fst snd] in *. split; [exact H1|].
      intros t p Ht. rewrite !events_of_app, (H2 t p Ht). reflexivity.
Qed.

Lemma ui_timer_invisible_witness :
  events_of TSerial is_system
    (snd (exec env_both measure_fixed panel_main Sys_init
            [RunSerial 0; UiTimer; RunSerial 0; UiTimer; RunSerial 0]))
  = 1%nat.
Proof.
  rewrite (proj2 (ui_timer_invisible env_both measure_fixed panel_main
                    [RunSerial 0; UiTimer; RunSerial 0; UiTimer; RunSerial 0]
                    Sys_init) TSerial is_system).
  - vm_compute. reflexivity.
  - discriminate.
Defined.

Lemma exec_no_cross_write_witness :
  existsb cross_write
    (snd (exec env_both measure_fixed panel_main Sys_init
            [RunNetwork 0; RunSerial 0; RunNetwork 0; RunSerial 0;
             RunNetwork 1; RunSerial 0]))
  = false.
Proof.
  apply exec_no_cross_write. right. vm_compute. discriminate.
Defined.

(** ** The sleep counter *)

Lemma network_worker_step_bounded (e : Env) (rc : Z) (pc : wpc) (s : AppState) :
  pc_bounded pc -> pc_bounded (fst (fst (network_worker_step e rc pc s))).
Proof.
  destruct pc as [|cmd|cmd|cmd i|cmd i|]; cbn; unfold bind, emit; cbn;
    try destruct (string_empty (resolve_path e "test_network.sh"));
    try destruct (Z.ltb_spec i 40); try destruct (running s); cbn; lia.
Qed.

Lemma serial_worker_step_bounded (e : Env) (rc : Z) (pc : wpc) (s : AppState) :
  pc_bounded pc -> pc_bounded (fst (fst (serial_worker_step e rc pc s))).
Proof.
  destruct pc as [|cmd|cmd|cmd i|cmd i|]; cbn; unfold bind, emit; cbn;
    try destruct (string_empty (resolve_path e "test_serial.sh"));
    try destruct (Z.ltb_spec i 40); try destruct (running s); cbn; lia.
Qed.

Lemma exec_bounded (e : Env) (fl_measure : string -> Z * Z) (panel : Widget)
    (sched : list choice) (sy : Sys) :
  pc_bounded (net_pc sy) /\ pc_bounded (ser_pc sy) ->
  pc_bounded (net_pc (fst (exec e fl_measure panel sy sched)))
  /\ pc_bounded (ser_pc (fst (exec e fl_measure panel sy sched))).
Proof.
  revert sy. induction sched as [|c sched IH]; intros sy [Hn Hs];
    [split; assumption|].
  cbn [exec].
  assert (Hstep : pc_bounded (net_pc (fst (sys_step e fl_measure panel sy c)))
                  /\ pc_bounded (ser_pc (fst (sys_step e fl_measure panel sy c)))).
  { destruct c as [rc|rc| |]; cbn [sys_step].
    - pose proof (network_worker_step_bounded e rc (net_pc sy) (app sy) Hn) as H.
      destruct (network_worker_step e rc (net_pc sy) (app sy)) as [[pc s] tr].
      split; [exact H | exact Hs].
    - pose proof (serial_worker_step_bounded e rc (ser_pc sy) (app sy) Hs) as H.
      destruct (serial_worker_step e rc (ser_pc sy) (app sy)) as [[pc s] tr].
      split; [exact Hn | exact H].
    - destruct (ui_timer_cb fl_measure panel (app sy)) as [[u s] tr].
      split; assumption.
    - split; assumption. }
  destruct (sys_step e fl_measure panel sy c) as [sy1 t1].
  specialize (IH sy1 Hstep).
  destruct (exec e fl_measure panel sy1 sched) as [sy2 t2].
  exact IH.
Qed.

(** X19.  However the threads are scheduled from program start, the sleep
    counter of each worker stays within its loop bounds: between 0 and 40 at
    a sleep check and between 0 and 39 at a sleep. *)
Theorem sleep_counter_bounded (e : Env) (fl_measure : string -> Z * Z)
    (panel : Widget) (sched : list choice) :
  let r := exec e fl_measure panel Sys_init sched in
  pc_bounded (net_pc (fst r)) /\ pc_bounded (ser_pc (fst r)).
Proof.
  apply exec_bounded. split; exact I.
Qed.

